(** * Federated round orchestration: a shallow embedding of
      [src/ai/models/federated_learning.py]

    The Python module is embedded function by function: [Client.train],
    [Client.evaluate], [FederatedServer.select_clients],
    [FederatedServer.aggregate_models], [split_data],
    [evaluate_global_model] and the round of [main].  Python code that raises
    is a computation in a state and exception monad; objects that are shared
    by reference (the state dicts handed to [aggregate_models]) live in a heap
    of dictionaries.

    Numbers.  Python [int]s are [Z].  Python [float]s and the entries of the
    tensors are exact rationals ([Qc]): the arithmetic of the parameter store
    is the one of a field, rounding is outside the model.  A parameter tensor
    is represented by one rational entry, which is all the elementwise
    operations [*] and [+] of the aggregation look at; tensors are values.

    Libraries.  [random.seed], [random.shuffle], [random.sample] and
    [nn.Module.state_dict], [nn.Module.load_state_dict] are not code of the
    repository; they are interfaces here ([PyRandom], [NNModule]), each with
    one instance to run the code on: a small generator that meets the
    contract of [random], and a module that loads a state dict the way torch
    does.  Logging is left out. *)

From Stdlib Require Import ZArith QArith Qcanon Qround Lia.
From stdpp Require Import base numbers gmap strings list fin_maps sorting.

Local Open Scope Z_scope.

(** * Part I: the model *)

(** ** Exceptions and the monad of Python computations *)

(** The exception classes the module can raise.  All of them are built-in
    classes raised by the interpreter or by a library; the module defines no
    exception class of its own.  [SystemError] stands for the interpreter's
    internal failures (a reference without an object), which no run from a
    well-formed state reaches. *)
Inductive exn : Type :=
  | IndexError
  | KeyError (key : string)
  | ZeroDivisionError
  | ValueError
  | RuntimeError
  | SystemError.

(** The name of the class of an exception, as [type(e).__name__]. *)
Definition exn_name (e : exn) : string :=
  match e with
  | IndexError => "IndexError"
  | KeyError _ => "KeyError"
  | ZeroDivisionError => "ZeroDivisionError"
  | ValueError => "ValueError"
  | RuntimeError => "RuntimeError"
  | SystemError => "SystemError"
  end.

(** A computation over a mutable state [S]: it ends with an exception or a
    value, and in both cases with the state it has reached (a raise undoes
    nothing). *)
Definition Py (S A : Type) : Type := S → (exn + A) * S.

Global Instance Py_ret {S} : MRet (Py S) := λ A a s, (inr a, s).

Global Instance Py_bind {S} : MBind (Py S) := λ A B k m s,
  match m s with
  | (inl e, s') => (inl e, s')
  | (inr a, s') => k a s'
  end.

Definition raise {S A} (e : exn) : Py S A := λ s, (inl e, s).
Definition get {S} : Py S S := λ s, (inr s, s).
Definition put {S} (s : S) : Py S unit := λ _, (inr tt, s).

(** [for x in xs: body x] *)
Fixpoint for_each {S A} (xs : list A) (body : A → Py S unit) : Py S unit :=
  match xs with
  | [] => mret tt
  | x :: xs' => body x ;; for_each xs' body
  end.

(** ** Built-in operations *)

(** [range(n)] *)
Definition range (n : Z) : list Z := Z.of_nat <$> seq 0 (Z.to_nat n).

(** [len(xs)] *)
Definition len {A} (xs : list A) : Z := Z.of_nat (length xs).

(** [xs[i]] for [i >= 0] *)
Definition list_getitem {S A} (xs : list A) (i : nat) : Py S A :=
  match xs !! i with
  | Some x => mret x
  | None => raise IndexError
  end.

(** [x / n] for a float [x] and an int [n] *)
Definition py_truediv {S} (x : Qc) (n : Z) : Py S Qc :=
  if decide (n = 0) then raise ZeroDivisionError else mret (x / Qc_of_Z n)%Qc.

(** [a // b] on ints *)
Definition py_floordiv {S} (a b : Z) : Py S Z :=
  if decide (b = 0) then raise ZeroDivisionError else mret (a `div` b).

(** [int(x)]: truncation towards zero *)
Definition py_int (x : Qc) : Z :=
  if decide (0 ≤ x)%Qc then Qfloor x else Qceiling x.

(** [sum(xs)]: starts from the int [0] and adds from left to right *)
Definition py_sum (xs : list Qc) : Qc := foldl Qcplus 0%Qc xs.

(** [xs[a:b]], with Python's treatment of negative and too large bounds *)
Definition slice_bound (n i : Z) : Z :=
  if decide (i < 0) then Z.max 0 (i + n) else Z.min i n.

Definition py_slice {A} (xs : list A) (a b : Z) : list A :=
  let s := slice_bound (len xs) a in
  let e := slice_bound (len xs) b in
  take (Z.to_nat (e - s)) (drop (Z.to_nat s) xs).

(** [sorted(set(xs))] *)
Definition sorted_set (xs : list Z) : list Z := merge_sort Z.le (remove_dups xs).

(** ** Parameter stores and the heap *)

(** A state dict: parameter name to value. *)
Abbreviation dict := (gmap string Qc).

(** References to dict objects, and the objects they denote. *)
Abbreviation loc := nat.
Abbreviation heap := (gmap nat (gmap string Qc)).

(** The interface of [torch.nn.Module] the code uses.  [load_state_dict d]
    mutates the module and may raise. *)
Class NNModule (Mod : Type) : Type := {
  state_dict : Mod → dict;
  load_state_dict : dict → Py Mod unit
}.

(** A module as torch has it.  [Module.load_state_dict(state_dict)], with
    the default [strict=True], first walks over the module's own parameters
    ([_load_from_state_dict]): a parameter whose name is a key of
    [state_dict] is overwritten in place ([param.copy_(input_param)]), one
    whose name is not is noted as missing.  Only after this walk the keys of
    [state_dict] without a parameter are noted as unexpected, and
    [RuntimeError] is raised if any key was missing or unexpected.  The
    parameters copied by then stay copied. *)
Record TorchModule : Type := { parameters : dict }.

Definition torch_load (d : dict) (own : dict) : dict :=
  map_imap (λ k old, Some (default old (d !! k))) own.

Global Instance TorchModule_NNModule : NNModule TorchModule := {
  state_dict m := parameters m;
  load_state_dict d m :=
    let m' := {| parameters := torch_load d (parameters m) |} in
    if decide (dom d = dom (parameters m)) then (inr tt, m') else (inl RuntimeError, m')
}.

(** ** The module-level generator of [random] *)

(** The generator is a deterministic function of its state.  [random_seed a]
    is the state [random.seed(a)] installs, whatever the state was before.
    [random_shuffle] gives the list after the in-place shuffle, a rearrangement
    of its argument; [random_sample xs k], for [k <= len(xs)], gives [k]
    elements drawn from distinct positions of [xs]. *)
Record PyRandom : Type := {
  rng : Type;
  random_seed : Z → rng;
  random_shuffle : list Z → rng → list Z * rng;
  random_sample : list Z → nat → rng → list Z * rng;
  random_shuffle_perm : ∀ xs g, (random_shuffle xs g).1 ≡ₚ xs;
  random_sample_length : ∀ xs k g,
    (k ≤ length xs)%nat → length (random_sample xs k g).1 = k;
  random_sample_distinct : ∀ xs k g,
    (k ≤ length xs)%nat → ∃ rest, (random_sample xs k g).1 ++ rest ≡ₚ xs
}.

Section Random.
Context {R : PyRandom}.

(** [random.seed(a)] *)
Definition seed (a : Z) : Py (rng R) unit := put (random_seed R a).

(** [random.shuffle(xs)]; the value is the list after the call *)
Definition shuffle (xs : list Z) : Py (rng R) (list Z) := λ g,
  let (ys, g') := random_shuffle R xs g in (inr ys, g').

(** [random.sample(population, k)] *)
Definition sample (population : list Z) (k : Z) : Py (rng R) (list Z) :=
  if decide (0 ≤ k ≤ len population) then
    λ g, let (ys, g') := random_sample R population (Z.to_nat k) g in (inr ys, g')
  else raise ValueError.
End Random.

(** ** class Client *)

Section Client.
(** The local model and a mini-batch are opaque, and so are the calls into
    torch: [train_mode] is [self.model.train()], [train_step] is one
    optimisation step (zero_grad, forward, criterion, backward,
    optimizer.step), which gives [loss.item()] and the updated model. *)
Context {Net Batch : Type}.
Context (train_mode : Net → Net).
Context (train_step : Batch → Net → Qc * Net).
Context `{!NNModule Net}.

(** [data_loader] is the list of mini-batches the loader yields in a pass,
    so [len(self.data_loader)] is its length; a loader over a shard with
    zero examples yields no batch. *)
Record Client : Type := {
  client_id : Z;
  data_loader : list Batch;
  model : Net
}.

Definition set_model (net : Net) (c : Client) : Client :=
  {| client_id := client_id c; data_loader := data_loader c; model := net |}.

(** The body of [for inputs, labels in self.data_loader], on the running
    [epoch_loss] *)
Definition train_batch (epoch_loss : Qc) (b : Batch) : Py Client Qc := λ c,
  let (loss, net) := train_step b (model c) in
  (inr (epoch_loss + loss)%Qc, set_model net c).

Fixpoint train_batches (bs : list Batch) (epoch_loss : Qc) : Py Client Qc :=
  match bs with
  | [] => mret epoch_loss
  | b :: bs' => epoch_loss ← train_batch epoch_loss b; train_batches bs' epoch_loss
  end.

(** The body of [for epoch in range(epochs)], on the running [total_loss] *)
Definition train_epoch (total_loss : Qc) : Py Client Qc :=
  c ← get;
  epoch_loss ← train_batches (data_loader c) 0%Qc;
  q ← py_truediv epoch_loss (len (data_loader c));
  mret (total_loss + q)%Qc.

Fixpoint train_epochs (epochs : nat) (total_loss : Qc) : Py Client Qc :=
  match epochs with
  | O => mret total_loss
  | S n => total_loss ← train_epoch total_loss; train_epochs n total_loss
  end.

(** [Client.train] *)
Definition train (epochs : Z) : Py Client (dict * Qc) :=
  c ← get;
  put (set_model (train_mode (model c)) c) ;;
  total_loss ← train_epochs (Z.to_nat epochs) 0%Qc;
  avg_loss ← py_truediv total_loss epochs;
  c ← get;
  mret (state_dict (model c), avg_loss).
End Client.
Arguments Client : clear implicits.

(** ** class FederatedServer *)

Record FederatedServer (Mod : Type) : Type := {
  global_model : Mod;
  num_clients : Z;
  client_fraction : Qc
}.
Arguments global_model {Mod} _.
Arguments num_clients {Mod} _.
Arguments client_fraction {Mod} _.

(** [FederatedServer.select_clients] *)
Definition select_clients {R : PyRandom} {Mod} (self : FederatedServer Mod)
    : Py (rng R) (list Z) :=
  let num_selected :=
    Z.max 1 (py_int (Qc_of_Z (num_clients self) * client_fraction self)%Qc) in
  selected_clients ← sample (range (num_clients self)) num_selected;
  mret selected_clients.

(** The state [aggregate_models] runs in: the dict objects reachable from its
    arguments, and [self]. *)
Record State (Mod : Type) : Type := {
  objects : heap;
  self : FederatedServer Mod
}.
Arguments objects {Mod} _.
Arguments self {Mod} _.

Section Aggregation.
Context {Mod : Type} `{!NNModule Mod}.

(** The object a reference denotes. *)
Definition deref (l : loc) : Py (State Mod) dict := λ s,
  match objects s !! l with
  | Some d => (inr d, s)
  | None => (inl SystemError, s)
  end.

Definition store (l : loc) (d : dict) : Py (State Mod) unit := λ s,
  (inr tt, {| objects := <[l := d]> (objects s); self := self s |}).

(** [copy.deepcopy(d)]: a new object with the same contents *)
Definition deepcopy (l : loc) : Py (State Mod) loc :=
  d ← deref l;
  s ← get;
  let l' := fresh (dom (objects s)) in
  store l' d ;; mret l'.

(** [d[key]] *)
Definition dict_getitem (l : loc) (key : string) : Py (State Mod) Qc :=
  d ← deref l;
  match d !! key with
  | Some v => mret v
  | None => raise (KeyError key)
  end.

(** [d[key] = v] *)
Definition dict_setitem (l : loc) (key : string) (v : Qc) : Py (State Mod) unit :=
  d ← deref l; store l (<[key := v]> d).

(** [d.keys()], in the order of the map; the loop over it assigns to
    existing keys only, so the keys stay the same while it runs. *)
Definition dict_keys (l : loc) : Py (State Mod) (list string) :=
  d ← deref l; mret (map_to_list d).*1.

(** [self.global_model.load_state_dict(d)] *)
Definition self_load (d : dict) : Py (State Mod) unit := λ s,
  let (r, m') := load_state_dict d (global_model (self s)) in
  (r, {| objects := objects s;
         self := {| global_model := m';
                    num_clients := num_clients (self s);
                    client_fraction := client_fraction (self s) |} |}).

Definition global_model_load (l : loc) : Py (State Mod) unit :=
  d ← deref l; self_load d.

(** The terms [client_dict[key] * weight for client_dict, weight in
    zip(client_updates, client_weights)] *)
Definition weighted_terms (key : string) (client_updates : list loc)
    (client_weights : list Qc) : Py (State Mod) (list Qc) :=
  mapM (λ cw : loc * Qc, v ← dict_getitem cw.1 key; mret (v * cw.2)%Qc)
       (zip client_updates client_weights).

(** [FederatedServer.aggregate_models]; [client_updates] are references *)
Definition aggregate_models (client_updates : list loc)
    (client_weights : option (list Qc)) : Py (State Mod) Mod :=
  client_weights ←
    match client_weights with
    | None => mapM (λ _, py_truediv 1%Qc (len client_updates))
                   (range (len client_updates))
    | Some ws => mret ws
    end;
  first ← list_getitem client_updates 0;
  global_dict ← deepcopy first;
  keys ← dict_keys global_dict;
  for_each keys (λ key,
    terms ← weighted_terms key client_updates client_weights;
    dict_setitem global_dict key (py_sum terms)) ;;
  global_model_load global_dict ;;
  s ← get;
  mret (global_model (self s)).
End Aggregation.

(** ** split_data *)

Section Partition.
Context {R : PyRandom}.
(** The features of an example; the label is an int. *)
Context {X : Type}.

(** [torch.utils.data.Subset(dataset, indices)] *)
Record Subset : Type := {
  subset_dataset : list (X * Z);
  subset_indices : list Z
}.

(** The examples of a shard: [subset[j] = dataset[indices[j]]]. *)
Definition subset_examples (s : Subset) : list (X * Z) :=
  omap (λ i, subset_dataset s !! Z.to_nat i) (subset_indices s).

Definition split_data (dataset : list (X * Z)) (num_clients : Z)
    (method : string) : Py (rng R) (list Subset) :=
  let data_size := len dataset in
  if decide (method = "iid") then
    indices ← shuffle (range data_size);
    chunk_size ← py_floordiv data_size num_clients;
    mret ((λ i,
            let start_idx := i * chunk_size in
            let end_idx :=
              if decide (i < num_clients - 1) then (i + 1) * chunk_size
              else data_size in
            let client_indices := py_slice indices start_idx end_idx in
            {| subset_dataset := dataset; subset_indices := client_indices |})
          <$> range num_clients)
  else if decide (method = "non_iid") then
    let labels := dataset.*2 in
    let unique_labels := sorted_set labels in
    num_labels_per_client ← py_floordiv (len unique_labels) num_clients;
    mret ((λ i,
            let client_labels :=
              py_slice unique_labels (i * num_labels_per_client)
                                     ((i + 1) * num_labels_per_client) in
            let client_indices :=
              (filter (λ p, p.2.2 ∈ client_labels)
                      (zip (range data_size) dataset)).*1 in
            {| subset_dataset := dataset; subset_indices := client_indices |})
          <$> range num_clients)
  else mret [].
End Partition.
Arguments Subset : clear implicits.

(** ** Client.evaluate and evaluate_global_model *)

Section Evaluation.
(** A mini-batch is the list of its examples.  [eval_mode] is
    [model.eval()]; [predict] is the class [torch.max(outputs.data, 1)] picks
    for one example (the forward pass of [SimpleModel] works row by row);
    [criterion] is [criterion(model(inputs), labels).item()]. *)
Context {Net X : Type}.
Context (eval_mode : Net → Net).
Context (predict : Net → X → Z).
Context (criterion : Net → list (X * Z) → Qc).

(** [(predicted == labels).sum().item()] *)
Definition batch_correct (net : Net) (batch : list (X * Z)) : Z :=
  len (filter (λ e, predict net e.1 = e.2) batch).

(** The body of [for inputs, labels in data_loader], on the running
    [(correct, total, total_loss)]. *)
Definition evaluate_batch (net : Net) (acc : Z * Z * Qc) (batch : list (X * Z))
    : Z * Z * Qc :=
  let '(correct, total, total_loss) := acc in
  (correct + batch_correct net batch, total + len batch,
   (total_loss + criterion net batch)%Qc).

(** [Client.evaluate] *)
Definition evaluate : Py (Client Net (list (X * Z))) (Qc * Qc) :=
  c ← get;
  put (set_model (eval_mode (model c)) c) ;;
  c ← get;
  let '(correct, total, total_loss) :=
    foldl (evaluate_batch (model c)) (0, 0, 0%Qc) (data_loader c) in
  accuracy ← py_truediv (Qc_of_Z (100 * correct)) total;
  avg_loss ← py_truediv total_loss (len (data_loader c));
  mret (accuracy, avg_loss).

(** [time.time()]: the clock is read once more at every call; [time_at n] is
    its [n]-th reading. *)
Context (time_at : nat → Qc).

(** The state of [evaluate_global_model]: the model it is handed, and the
    number of readings of the clock so far. *)
Record EvalState : Type := {
  eval_model : Net;
  clock : nat
}.

Definition time_time : Py EvalState Qc := λ s,
  (inr (time_at (clock s)), {| eval_model := eval_model s; clock := S (clock s) |}).

(** The body of the loop of [evaluate_global_model], on the running
    [(correct, total, total_loss)] and [inference_time]. *)
Definition evaluate_global_batch (acc : Z * Z * Qc * Qc) (batch : list (X * Z))
    : Py EvalState (Z * Z * Qc * Qc) :=
  let '(counts, inference_time) := acc in
  start_time ← time_time;
  end_time ← time_time;
  s ← get;
  mret (evaluate_batch (eval_model s) counts batch,
        (inference_time + (end_time - start_time))%Qc).

Fixpoint evaluate_global_batches (batches : list (list (X * Z)))
    (acc : Z * Z * Qc * Qc) : Py EvalState (Z * Z * Qc * Qc) :=
  match batches with
  | [] => mret acc
  | b :: bs => acc ← evaluate_global_batch acc b; evaluate_global_batches bs acc
  end.

(** [evaluate_global_model(model, data_loader, device)] *)
Definition evaluate_global_model (data_loader : list (list (X * Z)))
    : Py EvalState (Qc * Qc * Qc) :=
  s ← get;
  put {| eval_model := eval_mode (eval_model s); clock := clock s |} ;;
  acc ← evaluate_global_batches data_loader (0, 0, 0%Qc, 0%Qc);
  let '(correct, total, total_loss, inference_time) := acc in
  accuracy ← py_truediv (Qc_of_Z (100 * correct)) total;
  avg_loss ← py_truediv total_loss (len data_loader);
  avg_inference_time ← py_truediv inference_time (len data_loader);
  mret (accuracy, avg_loss, avg_inference_time).
End Evaluation.
Arguments EvalState : clear implicits.

(** ** main: a round *)

Section Round.
(** The body of [for round in range(args.rounds)] up to the distribution of
    the global model (lines 229 to 245 of the module).  A client object is
    referred to by its position in [clients]; [model.state_dict()] gives a new
    dict object. *)
Context {R : PyRandom}.
Context {Net Batch : Type}.
Context (train_mode : Net → Net).
Context (train_step : Batch → Net → Qc * Net).
Context `{!NNModule Net}.

(** What a round works on: the generator of [random], the list [clients],
    and [server] with the dict objects. *)
Record Federation : Type := {
  generator : rng R;
  clients : list (Client Net Batch);
  server : State Net
}.

Definition in_random {A} (c : Py (rng R) A) : Py Federation A := λ f,
  let (r, g) := c (generator f) in
  (r, {| generator := g; clients := clients f; server := server f |}).

Definition in_server {A} (c : Py (State Net) A) : Py Federation A := λ f,
  let (r, s) := c (server f) in
  (r, {| generator := generator f; clients := clients f; server := s |}).

(** A method call on the client object at position [i]. *)
Definition in_client {A} (i : nat) (c : Py (Client Net Batch) A) : Py Federation A := λ f,
  match clients f !! i with
  | Some client =>
      let (r, client') := c client in
      (r, {| generator := generator f;
             clients := <[i := client']> (clients f);
             server := server f |})
  | None => (inl SystemError, f)
  end.

(** [clients[i]], for an int [i] of either sign *)
Definition clients_getitem (i : Z) : Py Federation nat :=
  f ← get;
  let n := len (clients f) in
  if decide (0 ≤ i < n) then mret (Z.to_nat i)
  else if decide (- n ≤ i < 0) then mret (Z.to_nat (n + i))
  else raise IndexError.

(** A new dict object with the contents [d]. *)
Definition new_dict (d : dict) : Py (State Net) loc :=
  s ← get;
  let l := fresh (dom (objects s)) in
  store l d ;; mret l.

(** [client.model.load_state_dict(d)] *)
Definition model_load (d : dict) : Py (Client Net Batch) unit := λ c,
  let (r, net) := load_state_dict d (model c) in
  (r, set_model net c).

(** The body of [for client in selected_clients]: the update and its
    weight. *)
Definition train_selected (local_epochs : Z) (client : nat) : Py Federation (loc * Qc) :=
  r ← in_client client (train train_mode train_step local_epochs);
  local_model_dict ← in_server (new_dict r.1);
  mret (local_model_dict, 1%Qc).

(** The body of [for client in clients] *)
Definition distribute (client : nat) : Py Federation unit :=
  f ← get;
  in_client client (model_load (state_dict (global_model (self (server f))))).

Definition main_round (local_epochs : Z) : Py Federation unit :=
  f ← get;
  selected_client_ids ← in_random (select_clients (self (server f)));
  selected_clients ← mapM clients_getitem selected_client_ids;
  updates ← mapM (train_selected local_epochs) selected_clients;
  in_server (aggregate_models updates.*1 (Some updates.*2)) ;;
  f ← get;
  for_each (seq 0 (length (clients f))) distribute.
End Round.
Arguments Federation : clear implicits.

(** ** Vocabulary of the properties *)

(** [hoare P c Q]: from a state in [P], [c] ends with an outcome and a state
    related by [Q]. *)
Definition hoare {S A} (P : S → Prop) (c : Py S A) (Q : exn + A → S → Prop) : Prop :=
  ∀ s, P s → Q (c s).1 (c s).2.

(** [stateless c]: [c] reads the state and leaves it as it is. *)
Definition stateless {S A} (c : Py S A) : Prop := ∀ s, (c s).2 = s.

(** The weighted sum of the entries at [key], in the order of the updates. *)
Definition weighted_sum (key : string) (ds : list dict) (ws : list Qc) : Qc :=
  py_sum (zip_with (λ (d : dict) w, (default 0 (d !! key) * w)%Qc) ds ws).

(** The aggregate: the first update, the entry of every key in [keys]
    replaced by the weighted sum at that key. *)
Definition weighted_sums (d0 : dict) (ds : list dict) (ws : list Qc) (keys : list string)
    : dict :=
  foldl (λ (d : dict) key, <[key := weighted_sum key ds ws]> d) d0 keys.

(** The number of distinct labels of a dataset. *)
Definition num_labels {X} (dataset : list (X * Z)) : Z :=
  Z.of_nat (size (list_to_set (C := gset Z) dataset.*2)).

(** The index-to-client assignment of an outcome of [split_data]: the index
    list of every shard, or the exception. *)
Definition index_assignment {X} (r : exn + list (Subset X)) : exn + list (list Z) :=
  match r with
  | inl e => inl e
  | inr shards => inr (subset_indices <$> shards)
  end.

(** The loop of the IID branch of [split_data], on the shuffled index list. *)
Definition iid_chunks {X} (dataset : list (X * Z)) (indices : list Z)
    (num_clients chunk_size : Z) : list (Subset X) :=
  (λ i,
     {| subset_dataset := dataset;
        subset_indices :=
          py_slice indices (i * chunk_size)
            (if decide (i < num_clients - 1) then (i + 1) * chunk_size
             else len dataset) |})
  <$> range num_clients.

(** The labels of client [i] in the non-IID branch of [split_data]: the
    [i]-th slice of the sorted distinct labels. *)
Definition label_group {X} (dataset : list (X * Z)) (num_clients i : Z) : list Z :=
  let unique_labels := sorted_set dataset.*2 in
  let num_labels_per_client := len unique_labels `div` num_clients in
  py_slice unique_labels (i * num_labels_per_client) ((i + 1) * num_labels_per_client).

(** The loop of the non-IID branch of [split_data]. *)
Definition non_iid_shards {X} (dataset : list (X * Z)) (num_clients : Z)
    : list (Subset X) :=
  (λ i,
     {| subset_dataset := dataset;
        subset_indices :=
          (filter (λ p, p.2.2 ∈ label_group dataset num_clients i)
                  (zip (range (len dataset)) dataset)).*1 |})
  <$> range num_clients.

Section Outcome.
Context {Mod : Type} `{!NNModule Mod}.

(** Until [load_state_dict] is reached, the objects the caller holds and
    [self] are as they were at the call. *)
Definition untouched (st s : State Mod) : Prop :=
  objects st ⊆ objects s ∧ self s = self st.

(** The outcome of a call of [aggregate_models] from the state [st]. *)
Definition outcome (st : State Mod) (r : exn + Mod) (s : State Mod) : Prop :=
  objects st ⊆ objects s
  ∧ match r with
    | inr m => m = global_model (self s)
    | inl e =>
        global_model (self s) = global_model (self st)
        ∨ ∃ gd, load_state_dict gd (global_model (self st))
                = (inl e, global_model (self s))
    end.
End Outcome.

(** ** A reference generator

    A linear congruential generator that draws without replacement; it is
    the instance of [PyRandom] the code is run on. *)

Definition lcg_next (g : Z) : Z := (g * 1103515245 + 12345) `mod` 2147483648.

Fixpoint lcg_draw (k : nat) (pool : list Z) (g : Z) : list Z * Z :=
  match k, pool with
  | S k', x0 :: _ =>
      let g' := lcg_next g in
      let j := Z.to_nat ((g' `div` 65536) `mod` len pool) in
      let (ys, g'') := lcg_draw k' (delete j pool) g' in
      (default x0 (pool !! j) :: ys, g'')
  | _, _ => ([], g)
  end.

(** The draws are [k] elements from distinct positions of the pool, which
    makes the generator an instance of the interface. *)
Definition lcg_random : PyRandom.
Proof.
  assert (Hdraw : ∀ k pool g, (k ≤ length pool)%nat →
            length (lcg_draw k pool g).1 = k
            ∧ ∃ rest, (lcg_draw k pool g).1 ++ rest ≡ₚ pool).
  { induction k as [|k IH]; intros pool g Hk.
    - destruct pool; simpl; (split; [done|]); eexists; reflexivity.
    - destruct pool as [|x0 pool]; [simpl in Hk; lia|].
      cbn [lcg_draw].
      set (g' := lcg_next g).
      set (j := Z.to_nat ((g' `div` 65536) `mod` len (x0 :: pool))).
      assert (Hj : (j < length (x0 :: pool))%nat).
      { subst j. unfold len.
        pose proof (Z.mod_pos_bound (g' `div` 65536)
                      (Z.of_nat (length (x0 :: pool)))) as Hb.
        simpl length in *. lia. }
      destruct (lookup_lt_is_Some_2 _ _ Hj) as [x Hx].
      rewrite Hx. simpl default.
      specialize (IH (delete j (x0 :: pool)) g').
      destruct (lcg_draw k (delete j (x0 :: pool)) g') as [ys g''] eqn:Hd.
      simpl in IH |- *.
      destruct IH as [Hlen [rest Hrest]].
      { rewrite length_delete by eauto. simpl in Hk |- *. lia. }
      split; [by rewrite Hlen|].
      exists rest. rewrite Hrest. symmetry. by apply delete_Permutation. }
  refine {| rng := Z;
            random_seed := λ a, a `mod` 2147483648;
            random_shuffle := λ xs g, lcg_draw (length xs) xs g;
            random_sample := λ xs k g, lcg_draw k xs g |}.
  - intros xs g.
    destruct (Hdraw (length xs) xs g) as [Hlen [rest Hrest]]; [done|].
    assert (rest = []) as ->.
    { apply Permutation_length in Hrest.
      rewrite length_app, Hlen in Hrest. destruct rest; [done|simpl in Hrest; lia]. }
    by rewrite app_nil_r in Hrest.
  - intros xs k g Hk. by apply Hdraw.
  - intros xs k g Hk. by apply Hdraw.
Defined.

(** ** Inputs *)

(** Five clients, one in five selected per round. *)
Definition server_one_in_five : FederatedServer unit :=
  {| global_model := tt; num_clients := 5; client_fraction := Q2Qc (1 # 5) |}.

(** Five clients and the fraction 0. *)
Definition server_fraction_zero : FederatedServer unit :=
  {| global_model := tt; num_clients := 5; client_fraction := 0%Qc |}.

(** A client whose loader yields no batch. *)
Definition idle_client : Client TorchModule unit :=
  {| client_id := 0; data_loader := []; model := {| parameters := ∅ |} |}.

Definition five_examples : list (unit * Z) :=
  [(tt, 0); (tt, 1); (tt, 0); (tt, 1); (tt, 0)].

Definition two_labels : list (unit * Z) := [(tt, 0); (tt, 1); (tt, 1); (tt, 0)].

(** Two updates [{"w": 2.0}] and [{"w": 4.0}] in the heap, and a global model
    with the parameter ["w"]. *)
Definition two_updates : State TorchModule :=
  {| objects := {[ 0%nat := {[ "w" := Qc_of_Z 2 ]}; 1%nat := {[ "w" := Qc_of_Z 4 ]} ]};
     self := {| global_model := {| parameters := {[ "w" := 0%Qc ]} |};
                num_clients := 2;
                client_fraction := 1%Qc |} |}.

(** An update with the keys ["a"] and ["c"] for a global model with the
    parameters ["a"] and ["b"]. *)
Definition mismatched_update : State TorchModule :=
  {| objects := {[ 0%nat := {[ "a" := 1%Qc; "c" := 1%Qc ]} ]};
     self := {| global_model := {| parameters := {[ "a" := 0%Qc; "b" := 0%Qc ]} |};
                num_clients := 1;
                client_fraction := 1%Qc |} |}.

(** Five clients and the default fraction 1.0. *)
Definition server_all_clients : FederatedServer unit :=
  {| global_model := tt; num_clients := 5; client_fraction := 1%Qc |}.

(** A server with no client. *)
Definition server_no_clients : FederatedServer unit :=
  {| global_model := tt; num_clients := 0; client_fraction := 1%Qc |}.

(** A client whose loader yields two batches, and a training step with the
    loss 1 that leaves the model as it is. *)
Definition busy_client : Client TorchModule unit :=
  {| client_id := 1; data_loader := [tt; tt]; model := {| parameters := ∅ |} |}.

Definition unit_loss_step (_ : unit) (net : TorchModule) : Qc * TorchModule :=
  (1%Qc, net).

(** A client with five labelled examples in two batches, a client with no
    batch, a model that predicts the class 0 for every example, and a
    criterion whose loss is 0. *)
Definition labelled_client : Client TorchModule (list (unit * Z)) :=
  {| client_id := 2;
     data_loader := [[(tt, 0); (tt, 1)]; [(tt, 0); (tt, 1); (tt, 0)]];
     model := {| parameters := ∅ |} |}.

Definition unlabelled_client : Client TorchModule (list (unit * Z)) :=
  {| client_id := 3; data_loader := []; model := {| parameters := ∅ |} |}.

Definition predict_zero (_ : TorchModule) (_ : unit) : Z := 0.

Definition zero_criterion (_ : TorchModule) (_ : list (unit * Z)) : Qc := 0%Qc.

(** Two updates in the heap, the second without the key ["b"] of the
    first. *)
Definition ragged_updates : State TorchModule :=
  {| objects := {[ 0%nat := {[ "a" := 1%Qc; "b" := 1%Qc ]}; 1%nat := {[ "a" := 1%Qc ]} ]};
     self := {| global_model := {| parameters := {[ "a" := 0%Qc; "b" := 0%Qc ]} |};
                num_clients := 2;
                client_fraction := 1%Qc |} |}.

(** Four examples over three labels. *)
Definition three_labels : list (unit * Z) := [(tt, 0); (tt, 1); (tt, 2); (tt, 0)].

(** The shards of the non-IID split of [three_labels] over two clients. *)
Definition three_labels_shards : list (Subset unit) :=
  [ {| subset_dataset := three_labels; subset_indices := [0; 3] |};
    {| subset_dataset := three_labels; subset_indices := [1] |} ].

(** A training step with the loss 1 that adds 1 to every parameter. *)
Definition increment_step (_ : unit) (net : TorchModule) : Qc * TorchModule :=
  (1%Qc, {| parameters := (λ v, v + 1)%Qc <$> parameters net |}).

(** Two clients with the parameter ["w"], one batch and two batches, and a
    server that selects both. *)
Definition two_clients : Federation lcg_random TorchModule unit :=
  {| generator := (42 : rng lcg_random);
     clients :=
       [ {| client_id := 0; data_loader := [tt];
            model := {| parameters := {[ "w" := Qc_of_Z 2 ]} |} |};
         {| client_id := 1; data_loader := [tt; tt];
            model := {| parameters := {[ "w" := Qc_of_Z 4 ]} |} |} ];
     server := {| objects := ∅;
                  self := {| global_model := {| parameters := {[ "w" := 0%Qc ]} |};
                             num_clients := 2;
                             client_fraction := 1%Qc |} |} |}.

(** The same, the second client without a batch. *)
Definition starved_clients : Federation lcg_random TorchModule unit :=
  {| generator := (42 : rng lcg_random);
     clients :=
       [ {| client_id := 0; data_loader := [tt];
            model := {| parameters := {[ "w" := Qc_of_Z 2 ]} |} |};
         {| client_id := 1; data_loader := [];
            model := {| parameters := {[ "w" := Qc_of_Z 4 ]} |} |} ];
     server := {| objects := ∅;
                  self := {| global_model := {| parameters := {[ "w" := 0%Qc ]} |};
                             num_clients := 2;
                             client_fraction := 1%Qc |} |} |}.

(** ** Statements the code does not satisfy

    Each is the sentence of the specification as it stands; Part II refutes
    it on an input above and proves what the code does instead. *)

(** C1 as stated, for a tolerance [tol]: explicit weights whose sum is
    farther than [tol] from 1 make [aggregate_models] raise
    [AggregationError]. *)
Definition rejects_unnormalised_weights (tol : Qc) : Prop :=
  ∀ (st : State TorchModule) (us : list loc) (ws : list Qc),
    us ≠ [] →
    (py_sum ws < 1 - tol ∨ 1 + tol < py_sum ws)%Qc →
    ∃ e st', aggregate_models us (Some ws) st = (inl e, st')
             ∧ exn_name e = "AggregationError".

(** C3 as stated: the IID shards partition the dataset, and any two shard
    sizes differ by at most one. *)
Definition iid_partition_balanced : Prop :=
  ∀ (R : PyRandom) (dataset : list (unit * Z)) (num_clients : Z) (g : rng R),
    1 ≤ num_clients →
    ∃ shards g',
      split_data dataset num_clients "iid" g = (inr shards, g')
      ∧ concat (subset_examples <$> shards) ≡ₚ dataset
      ∧ ∀ s1 s2, s1 ∈ shards → s2 ∈ shards →
          Z.abs (len (subset_examples s1) - len (subset_examples s2)) ≤ 1.

(** C4 as stated: a call of [aggregate_models] that raises leaves the global
    model as it was. *)
Definition round_atomic : Prop :=
  ∀ (st : State TorchModule) (us : list loc) (ws : option (list Qc)) e st',
    aggregate_models us ws st = (inl e, st') →
    global_model (self st') = global_model (self st).

(** C6 as stated: training on a shard with no example raises
    [EmptyShardError]. *)
Definition empty_shard_raises_EmptyShardError : Prop :=
  ∀ (train_mode : TorchModule → TorchModule)
    (train_step : unit → TorchModule → Qc * TorchModule)
    (c : Client TorchModule unit) (epochs : Z),
    data_loader c = [] →
    ∃ e c', train train_mode train_step epochs c = (inl e, c')
            ∧ exn_name e = "EmptyShardError".

(** C7 as stated: a fraction outside (0, 1] makes [select_clients] raise
    [ConfigurationError]. *)
Definition rejects_bad_fraction : Prop :=
  ∀ (R : PyRandom) (srv : FederatedServer unit) (g : rng R),
    ¬ (0 < client_fraction srv ≤ 1)%Qc →
    ∃ e g', select_clients srv g = (inl e, g') ∧ exn_name e = "ConfigurationError".

(** * Part II: properties *)

(** ** Running computations *)

Lemma run_bind {S A B} (m : Py S A) (k : A → Py S B) (s : S) :
  (m ≫= k) s = match m s with (inl e, s') => (inl e, s') | (inr a, s') => k a s' end.
Proof. reflexivity. Qed.

Lemma run_bind_inr {S A B} (m : Py S A) (k : A → Py S B) s a s' :
  m s = (inr a, s') → (m ≫= k) s = k a s'.
Proof. intros H. rewrite run_bind, H. reflexivity. Qed.

Lemma run_bind_inl {S A B} (m : Py S A) (k : A → Py S B) s e s' :
  m s = (inl e, s') → (m ≫= k) s = (inl e, s').
Proof. intros H. rewrite run_bind, H. reflexivity. Qed.

Lemma run_ret {S A} (a : A) (s : S) : mret (M := Py S) a s = (inr a, s).
Proof. reflexivity. Qed.

(** No exception of the module carries one of the names of the error
    taxonomy: the classes do not exist in the code. *)
Lemma exn_name_builtin (e : exn) :
  exn_name e ≠ "AggregationError" ∧ exn_name e ≠ "ConfigurationError"
  ∧ exn_name e ≠ "EmptyShardError".
Proof. destruct e; repeat split; discriminate. Qed.

(** ** Lists, ranges and slices *)

Lemma len_nonneg {A} (xs : list A) : 0 ≤ len xs.
Proof. unfold len. lia. Qed.

Lemma length_range n : length (range n) = Z.to_nat n.
Proof. unfold range. by rewrite length_fmap, length_seq. Qed.

Lemma len_range n : 0 ≤ n → len (range n) = n.
Proof. intros. unfold len. rewrite length_range. lia. Qed.

Lemma elem_of_range n i : i ∈ range n ↔ 0 ≤ i < n.
Proof.
  unfold range. rewrite list_elem_of_fmap. split.
  - intros (k & -> & Hk). apply elem_of_seq in Hk. lia.
  - intros Hi. exists (Z.to_nat i). split; [lia|]. apply elem_of_seq. lia.
Qed.

Lemma NoDup_range n : NoDup (range n).
Proof.
  unfold range. apply NoDup_fmap_2; [|apply NoDup_seq].
  intros x y. lia.
Qed.

Lemma range_succ n : 0 ≤ n → range (n + 1) = range n ++ [n].
Proof.
  intros Hn. unfold range.
  replace (Z.to_nat (n + 1)) with (Z.to_nat n + 1)%nat by lia.
  rewrite seq_app, fmap_app. simpl. do 3 f_equal. lia.
Qed.

Lemma py_slice_take_drop {A} (xs : list A) a b :
  0 ≤ a ≤ b → b ≤ len xs →
  py_slice xs a b = take (Z.to_nat (b - a)) (drop (Z.to_nat a) xs).
Proof.
  intros Ha Hb. unfold py_slice, slice_bound.
  repeat case_decide; try lia.
  rewrite !Z.min_l by lia. reflexivity.
Qed.

Lemma py_slice_empty {A} (xs : list A) : py_slice xs 0 0 = [].
Proof.
  unfold py_slice, slice_bound. case_decide; [lia|].
  by replace (Z.min 0 (len xs) - Z.min 0 (len xs)) with 0 by lia.
Qed.

(** ** select_clients *)

Lemma py_int_nonneg (q : Qc) : (0 ≤ q)%Qc → py_int q = Qfloor q ∧ 0 ≤ Qfloor q.
Proof.
  intros Hq. unfold py_int. rewrite decide_True by done. split; [done|].
  change 0 with (Qfloor 0). by apply Qfloor_resp_le.
Qed.

Lemma py_int_nonpos (q : Qc) : (q ≤ 0)%Qc → py_int q ≤ 0.
Proof.
  intros Hq. unfold py_int. case_decide as H0.
  - assert (q = 0%Qc) as -> by (by apply Qcle_antisym). done.
  - change 0 with (Qceiling 0). by apply Qceiling_resp_le.
Qed.

Lemma Qfloor_Qc_of_Z (n : Z) : Qfloor (Qc_of_Z n) = n.
Proof. apply Qfloor_Z. Qed.

Section SelectClients.
Context (R : PyRandom).

Lemma sample_ok (population : list Z) (k : Z) (g : rng R) :
  0 ≤ k ≤ len population →
  ∃ ys g', sample population k g = (inr ys, g') ∧ len ys = k
           ∧ ∃ rest, ys ++ rest ≡ₚ population.
Proof.
  intros Hk. unfold sample. rewrite decide_True by done.
  assert (Hn : (Z.to_nat k ≤ length population)%nat) by (unfold len in Hk; lia).
  pose proof (random_sample_length R population _ g Hn) as Hlen.
  pose proof (random_sample_distinct R population _ g Hn) as Hrest.
  destruct (random_sample R population (Z.to_nat k) g) as [ys g'].
  exists ys, g'. simpl in *. split_and!; [done | unfold len; lia | done].
Qed.

Lemma sample_fail (population : list Z) (k : Z) (g : rng R) :
  ¬ (0 ≤ k ≤ len population) → sample population k g = (inl ValueError, g).
Proof. intros Hk. unfold sample. by rewrite decide_False. Qed.

(** What [select_clients] does once [num_selected] fits the population. *)
Lemma select_clients_run {Mod} (srv : FederatedServer Mod) (g : rng R) :
  let k := Z.max 1 (py_int (Qc_of_Z (num_clients srv) * client_fraction srv)%Qc) in
  k ≤ num_clients srv →
  ∃ ids g', select_clients srv g = (inr ids, g') ∧ len ids = k ∧ NoDup ids
            ∧ ∀ i, i ∈ ids → 0 ≤ i < num_clients srv.
Proof.
  intros k Hk.
  destruct (sample_ok (range (num_clients srv)) k g) as (ys & g' & Hs & Hlen & rest & Hrest).
  { rewrite len_range by lia. lia. }
  exists ys, g'. unfold select_clients. fold k.
  rewrite (run_bind_inr _ _ _ _ _ Hs), run_ret.
  split_and!; [done|done| |].
  - assert (Hnd : NoDup (ys ++ rest)) by (rewrite Hrest; apply NoDup_range).
    by apply NoDup_app in Hnd as [? _].
  - intros i Hi. apply elem_of_range. rewrite <- Hrest. set_solver.
Qed.
End SelectClients.



(** With fraction 0 and five clients the call returns one client id. *)
Lemma select_clients_fraction_zero :
  select_clients (R := lcg_random) server_fraction_zero 42 = (inr [1], 1250496027).
Proof. vm_compute. reflexivity. Qed.




(** ** Client.train *)

(** C6, counterexample: one epoch on an empty loader ends in the division
    [epoch_loss / len(self.data_loader)], which raises [ZeroDivisionError]. *)
Lemma train_empty_shard_not_EmptyShardError : ¬ empty_shard_raises_EmptyShardError.
Proof.
  intros H.
  destruct (H id (λ _ m, (0%Qc, m)) idle_client 1 eq_refl) as (e & c' & Hrun & Hname).
  vm_compute in Hrun. injection Hrun as <- _. discriminate.
Qed.

(** C6, as the code has it.  For every call to [Client.train] with
    [epochs >= 0] on a client whose loader yields no batch, the call raises
    [ZeroDivisionError], from a division that computes a loss average
    ([epoch_loss / len(self.data_loader)], or [total_loss / epochs] when
    there is no epoch); it returns no result, and all it has done to the
    client is [self.model.train()]. *)
Theorem train_empty_shard {Net Batch : Type} (train_mode : Net → Net)
    (train_step : Batch → Net → Qc * Net) `{!NNModule Net}
    (c : Client Net Batch) (epochs : Z) :
  data_loader c = [] →
  0 ≤ epochs →
  train train_mode train_step epochs c
  = (inl ZeroDivisionError, set_model (train_mode (model c)) c).
Proof.
  intros Hdl Hep. unfold train.
  rewrite (run_bind_inr get _ c c c eq_refl).
  rewrite (run_bind_inr (put _) _ c tt (set_model (train_mode (model c)) c) eq_refl).
  destruct (Z.to_nat epochs) as [|n] eqn:Hn.
  - assert (epochs = 0) as -> by lia. reflexivity.
  - cbn [train_epochs]. unfold train_epoch.
    rewrite !run_bind. simpl. rewrite Hdl. reflexivity.
Qed.

Lemma train_empty_shard_witness :
  train id (λ (_ : unit) (m : TorchModule), (0%Qc, m)) 3 idle_client
  = (inl ZeroDivisionError, set_model (id (model idle_client)) idle_client).
Proof. apply train_empty_shard; [reflexivity | lia]. Defined.

(** ** split_data *)

Lemma lookup_range n (i : nat) :
  Z.of_nat i < n → range n !! i = Some (Z.of_nat i).
Proof.
  intros Hi. unfold range. rewrite list_lookup_fmap, lookup_seq_lt by lia. done.
Qed.

Lemma length_py_slice {A} (xs : list A) a b :
  0 ≤ a ≤ b → b ≤ len xs → len (py_slice xs a b) = b - a.
Proof.
  intros Ha Hb. rewrite py_slice_take_drop by done.
  unfold len in *. rewrite length_take, length_drop. lia.
Qed.

(** Consecutive slices of width [c] add up to a prefix. *)
Lemma concat_chunks {A} (xs : list A) (c : Z) (k : nat) :
  0 ≤ c → Z.of_nat k * c ≤ len xs →
  concat ((λ i, py_slice xs (i * c) ((i + 1) * c)) <$> range (Z.of_nat k))
  = take (Z.to_nat (Z.of_nat k * c)) xs.
Proof.
  intros Hc. induction k as [|k IH]; intros Hk; [done|].
  replace (Z.of_nat (S k)) with (Z.of_nat k + 1) in * by lia.
  rewrite range_succ, fmap_app, concat_app, IH by lia.
  simpl. rewrite app_nil_r, py_slice_take_drop by lia.
  rewrite take_take_drop. f_equal. lia.
Qed.

Lemma omap_concat {A B} (f : A → option B) (xss : list (list A)) :
  omap f (concat xss) = concat ((λ xs : list A, omap f xs) <$> xss).
Proof.
  induction xss as [|xs xss IH]; [done|].
  simpl. by rewrite omap_app, IH.
Qed.

(** Reading a list back through all its indices. *)
Lemma omap_lookup_range {A} (xs : list A) :
  omap (λ i, xs !! Z.to_nat i) (range (len xs)) = xs.
Proof.
  induction xs as [|x xs IH] using rev_ind; [done|].
  unfold len. rewrite length_app. simpl length.
  replace (Z.of_nat (length xs + 1)) with (len xs + 1) by (unfold len; lia).
  rewrite range_succ, omap_app by apply len_nonneg.
  simpl. unfold len at 2. rewrite Nat2Z.id, list_lookup_middle by done.
  simpl. f_equal. rewrite <- IH at 2.
  apply list_omap_ext, Forall2_same_length_lookup_2; [done|].
  intros i a b Ha Hb. assert (a = b) as <- by congruence.
  apply list_elem_of_lookup_2, elem_of_range in Ha.
  apply lookup_app_l. unfold len in Ha. lia.
Qed.

Section SplitData.
Context (R : PyRandom) {X : Type}.
Implicit Types dataset : list (X * Z).

Lemma shuffle_run (xs : list Z) (g : rng R) :
  ∃ ys g', shuffle xs g = (inr ys, g') ∧ ys ≡ₚ xs.
Proof.
  unfold shuffle. pose proof (random_shuffle_perm R xs g) as Hp.
  destruct (random_shuffle R xs g) as [ys g']. by exists ys, g'.
Qed.

Lemma split_data_iid_run dataset num_clients (g : rng R) :
  num_clients ≠ 0 →
  ∃ indices g',
    split_data dataset num_clients "iid" g
    = (inr (iid_chunks dataset indices num_clients (len dataset `div` num_clients)), g')
    ∧ indices ≡ₚ range (len dataset).
Proof.
  intros Hn.
  destruct (shuffle_run (range (len dataset)) g) as (indices & g' & Hs & Hp).
  exists indices, g'. split; [|done].
  unfold split_data. rewrite decide_True by done.
  rewrite (run_bind_inr _ _ _ _ _ Hs).
  unfold py_floordiv. rewrite decide_False by done. reflexivity.
Qed.

Lemma iid_chunks_indices dataset indices num_clients :
  1 ≤ num_clients → len indices = len dataset →
  concat (subset_indices <$>
            iid_chunks dataset indices num_clients (len dataset `div` num_clients))
  = indices.
Proof.
  intros Hn Hlen. unfold iid_chunks.
  set (N := len dataset) in *. set (c := N `div` num_clients).
  assert (HN : 0 ≤ N) by apply len_nonneg.
  assert (Hc : 0 ≤ c) by (apply Z.div_pos; lia).
  assert (Hnc : num_clients * c ≤ N) by (apply Z.mul_div_le; lia).
  set (m := Z.to_nat (num_clients - 1)).
  assert (Hr : range num_clients = range (Z.of_nat m) ++ [Z.of_nat m]).
  { rewrite <- range_succ by lia. f_equal. lia. }
  rewrite Hr, !fmap_app, concat_app, <- list_fmap_compose.
  erewrite (list_fmap_ext _ (λ i, py_slice indices (i * c) ((i + 1) * c))); last first.
  { intros i x Hx. apply list_elem_of_lookup_2, elem_of_range in Hx.
    simpl. rewrite decide_True by lia. done. }
  rewrite concat_chunks by nia.
  simpl. rewrite decide_False, app_nil_r by lia.
  rewrite py_slice_take_drop by nia.
  rewrite (take_ge (drop _ _)); [apply take_drop|].
  rewrite length_drop. unfold len in Hlen. lia.
Qed.

Lemma iid_chunks_size dataset indices num_clients (i : nat) (s : Subset X) :
  1 ≤ num_clients → len indices = len dataset →
  iid_chunks dataset indices num_clients (len dataset `div` num_clients) !! i = Some s →
  len (subset_indices s)
  = if decide (Z.of_nat i < num_clients - 1) then len dataset `div` num_clients
    else len dataset `div` num_clients + len dataset `mod` num_clients.
Proof.
  intros Hn Hlen Hi. unfold iid_chunks in Hi.
  set (N := len dataset) in *. set (c := N `div` num_clients) in *.
  assert (HN : 0 ≤ N) by apply len_nonneg.
  assert (Hc : 0 ≤ c) by (apply Z.div_pos; lia).
  assert (Hnc : num_clients * c ≤ N) by (apply Z.mul_div_le; lia).
  assert (Hmod : N `mod` num_clients = N - num_clients * c)
    by (unfold c; rewrite Z.mod_eq; lia).
  rewrite list_lookup_fmap in Hi.
  assert (Hlt : Z.of_nat i < num_clients).
  { apply fmap_Some in Hi as (j & Hj & _).
    apply lookup_lt_Some in Hj. rewrite length_range in Hj. lia. }
  rewrite lookup_range in Hi by done. simpl in Hi. injection Hi as <-. simpl.
  case_decide.
  - rewrite length_py_slice by nia. lia.
  - assert (Z.of_nat i = num_clients - 1) as -> by lia.
    rewrite length_py_slice by nia. lia.
Qed.
End SplitData.

Lemma length_omap_total {A B} (f : A → option B) (xs : list A) :
  (∀ x, x ∈ xs → is_Some (f x)) → length (omap f xs) = length xs.
Proof.
  induction xs as [|x xs IH]; intros Hf; [done|].
  destruct (Hf x) as [y Hy]; [by left|].
  cbn. rewrite Hy. simpl. f_equal. apply IH. intros z Hz. apply Hf. by right.
Qed.

(** Five examples over three clients: chunks of one, one and three indices. *)
Lemma split_data_five_over_three :
  split_data (R := lcg_random) five_examples 3 "iid" 42
  = (inr [ {| subset_dataset := five_examples; subset_indices := [1] |};
           {| subset_dataset := five_examples; subset_indices := [2] |};
           {| subset_dataset := five_examples; subset_indices := [4; 3; 0] |} ],
     908095735).
Proof. vm_compute. reflexivity. Qed.

(** C3, counterexample: the remainder of [len(dataset) // num_clients] goes to
    the last chunk as a whole, so sizes 1 and 3 occur together. *)
Lemma iid_partition_not_balanced : ¬ iid_partition_balanced.
Proof.
  intros H.
  destruct (H lcg_random five_examples 3 42) as (shards & g' & Hrun & _ & Hsz); [lia|].
  rewrite split_data_five_over_three in Hrun. injection Hrun as <- _.
  specialize (Hsz {| subset_dataset := five_examples; subset_indices := [1] |}
                  {| subset_dataset := five_examples; subset_indices := [4; 3; 0] |}).
  vm_compute in Hsz. apply Hsz; [set_solver | set_solver | reflexivity].
Qed.

(** C3, as the code has it.  For every dataset and [num_clients >= 1] the IID
    split gives [num_clients] shards whose index lists, put end to end, are a
    rearrangement of [0 .. len(dataset) - 1], so the shards together hold
    every example exactly once.  Every shard but the last has
    [len(dataset) // num_clients] examples and the last has the remainder
    [len(dataset) % num_clients] in addition. *)
Theorem split_data_iid_partition (R : PyRandom) {X : Type} (dataset : list (X * Z))
    (num_clients : Z) (g : rng R) :
  1 ≤ num_clients →
  ∃ shards g',
    split_data dataset num_clients "iid" g = (inr shards, g')
    ∧ len shards = num_clients
    ∧ concat (subset_indices <$> shards) ≡ₚ range (len dataset)
    ∧ concat (subset_examples <$> shards) ≡ₚ dataset
    ∧ ∀ (i : nat) s, shards !! i = Some s →
        len (subset_examples s)
        = if decide (Z.of_nat i < num_clients - 1)
          then len dataset `div` num_clients
          else len dataset `div` num_clients + len dataset `mod` num_clients.
Proof.
  intros Hn.
  destruct (split_data_iid_run R dataset num_clients g) as (indices & g' & Hrun & Hp);
    [lia|].
  assert (Hlen : len indices = len dataset).
  { unfold len at 1. rewrite Hp, length_range. pose proof (len_nonneg dataset). lia. }
  pose proof (iid_chunks_indices dataset indices num_clients Hn Hlen) as Hcat.
  set (shards := iid_chunks dataset indices num_clients (len dataset `div` num_clients)) in *.
  assert (Hds : ∀ s, s ∈ shards → subset_dataset s = dataset).
  { intros s Hs. unfold shards, iid_chunks in Hs.
    apply list_elem_of_fmap in Hs as (i & -> & _). done. }
  assert (Hex : subset_examples <$> shards
                = (λ idx : list Z, omap (λ i, dataset !! Z.to_nat i) idx)
                  <$> (subset_indices <$> shards)).
  { rewrite <- list_fmap_compose. apply list_fmap_ext.
    intros i s Hs. apply list_elem_of_lookup_2, Hds in Hs.
    unfold subset_examples. simpl. by rewrite Hs. }
  exists shards, g'. split_and!.
  - done.
  - unfold shards, iid_chunks, len. rewrite length_fmap, length_range. lia.
  - by rewrite Hcat.
  - rewrite Hex, <- omap_concat, Hcat, Hp. by rewrite omap_lookup_range.
  - intros i s Hi.
    rewrite <- (iid_chunks_size dataset indices num_clients i s Hn Hlen Hi).
    unfold len. f_equal. unfold subset_examples.
    pose proof (list_elem_of_lookup_2 _ _ _ Hi) as Hs.
    rewrite (Hds s Hs). apply length_omap_total.
    intros j Hj. apply lookup_lt_is_Some.
    assert (Hj' : j ∈ range (len dataset)).
    { rewrite <- Hp, <- Hcat. apply list_elem_of_In, in_concat.
      exists (subset_indices s). split; apply list_elem_of_In; [|done].
      by apply list_elem_of_fmap_2. }
    apply elem_of_range in Hj'. unfold len in Hj'. lia.
Qed.

Lemma split_data_iid_partition_witness :
  ∃ shards g',
    split_data (R := lcg_random) five_examples 3 "iid" 42 = (inr shards, g')
    ∧ len shards = 3
    ∧ concat (subset_indices <$> shards) ≡ₚ range (len five_examples)
    ∧ concat (subset_examples <$> shards) ≡ₚ five_examples
    ∧ ∀ (i : nat) s, shards !! i = Some s →
        len (subset_examples s)
        = if decide (Z.of_nat i < 3 - 1)
          then len five_examples `div` 3
          else len five_examples `div` 3 + len five_examples `mod` 3.
Proof. apply (split_data_iid_partition lcg_random five_examples 3 42). lia. Defined.



(** The seed matters: the code itself never seeds [random], and a second
    split from the state the first one left assigns the indices differently. *)
Remark split_data_iid_unseeded_varies :
  (split_data (R := lcg_random) five_examples 3 "iid" 42).1
  ≠ (split_data (R := lcg_random) five_examples 3 "iid" 908095735).1.
Proof. vm_compute. discriminate. Qed.

Lemma len_sorted_set (xs : list Z) :
  len (sorted_set xs) = Z.of_nat (size (list_to_set (C := gset Z) xs)).
Proof.
  unfold len, sorted_set. f_equal.
  rewrite merge_sort_Permutation.
  rewrite <- (size_list_to_set (C := gset Z) (remove_dups xs)) by apply NoDup_remove_dups.
  f_equal. apply set_eq. intros x.
  by rewrite !elem_of_list_to_set, elem_of_remove_dups.
Qed.

Lemma filter_label_in_nil {X} (ps : list (Z * (X * Z))) :
  filter (λ p, p.2.2 ∈ @nil Z) ps = [].
Proof.
  induction ps as [|p ps IH]; [done|].
  rewrite filter_cons_False; [done|]. apply not_elem_of_nil.
Qed.



(** ** Reasoning about computations *)

Section Rules.
Context {S : Type}.
Implicit Types P I : S → Prop.

Lemma hoare_bind {A B} P (m : Py S A) (k : A → Py S B) Qm Q :
  hoare P m Qm →
  (∀ e s, Qm (inl e) s → Q (inl e) s) →
  (∀ a, hoare (Qm (inr a)) (k a) Q) →
  hoare P (m ≫= k) Q.
Proof.
  intros Hm He Hk s Hs. specialize (Hm s Hs). rewrite run_bind.
  destruct (m s) as [[e|a] s']; simpl in *; [by apply He | by apply Hk].
Qed.

Lemma hoare_stateless {A} I (c : Py S A) : stateless c → hoare I c (λ _, I).
Proof. intros Hc s Hs. by rewrite Hc. Qed.

Lemma hoare_for_each {A} I (xs : list A) (body : A → Py S unit) :
  (∀ x, x ∈ xs → hoare I (body x) (λ _, I)) →
  hoare I (for_each xs body) (λ _, I).
Proof.
  induction xs as [|x xs IH]; intros Hbody; [by intros s Hs|].
  simpl. eapply hoare_bind; [apply Hbody; by left | done |].
  intros []. apply IH. intros y Hy. apply Hbody. by right.
Qed.

Lemma stateless_ret {A} (a : A) : stateless (mret (M := Py S) a).
Proof. done. Qed.

Lemma stateless_raise {A} (e : exn) : stateless (raise (S := S) (A := A) e).
Proof. done. Qed.

Lemma stateless_get : stateless (get (S := S)).
Proof. done. Qed.

Lemma stateless_bind {A B} (m : Py S A) (k : A → Py S B) :
  stateless m → (∀ a, stateless (k a)) → stateless (m ≫= k).
Proof.
  intros Hm Hk s. rewrite run_bind. specialize (Hm s).
  destruct (m s) as [[e|a] s']; simpl in *; subst; [done | apply Hk].
Qed.

Lemma stateless_mapM {A B} (f : A → Py S B) (xs : list A) :
  (∀ x, stateless (f x)) → stateless (mapM f xs).
Proof.
  intros Hf. induction xs as [|x xs IH]; [done|].
  simpl. apply stateless_bind; [done|]. intros y.
  apply stateless_bind; [done|]. intros ys. apply stateless_ret.
Qed.

Lemma stateless_list_getitem {A} (xs : list A) i : stateless (list_getitem (S := S) xs i).
Proof. unfold list_getitem. by destruct (xs !! i). Qed.

Lemma stateless_py_truediv x n : stateless (py_truediv (S := S) x n).
Proof. unfold py_truediv. by case_decide. Qed.

(** A loop whose body succeeds without touching the state. *)
Lemma mapM_run {A B} (f : A → Py S B) (xs : list A) (ys : list B) (s : S) :
  Forall2 (λ x y, f x s = (inr y, s)) xs ys → mapM f xs s = (inr ys, s).
Proof.
  intros H. induction H as [|x y l k Hxy _ IH]; [done|].
  simpl. rewrite (run_bind_inr _ _ _ _ _ Hxy), (run_bind_inr _ _ _ _ _ IH). done.
Qed.
End Rules.

(** ** aggregate_models: what a call may change *)

Section AggregationFrame.
Context {Mod : Type} `{!NNModule Mod}.
Implicit Types (s st : State Mod) (h : heap).

Lemma stateless_deref l : stateless (deref (Mod := Mod) l).
Proof. intros s. unfold deref. by destruct (objects s !! l). Qed.

Lemma stateless_dict_getitem l key : stateless (dict_getitem (Mod := Mod) l key).
Proof.
  apply stateless_bind; [apply stateless_deref|].
  intros d. by destruct (d !! key).
Qed.

Lemma stateless_dict_keys l : stateless (dict_keys (Mod := Mod) l).
Proof. apply stateless_bind; [apply stateless_deref | done]. Qed.

Lemma stateless_weighted_terms key us ws :
  stateless (weighted_terms (Mod := Mod) key us ws).
Proof.
  apply stateless_mapM. intros [l w].
  apply stateless_bind; [apply stateless_dict_getitem | done].
Qed.

Lemma hoare_deepcopy st l :
  hoare (untouched st) (deepcopy l)
    (λ r s, untouched st s ∧ ∀ g, r = inr g → objects st !! g = None).
Proof.
  intros s [Hsub Hself]. unfold deepcopy, deref. rewrite run_bind.
  destruct (objects s !! l) as [d|]; simpl; [|by split].
  split; [split|]; simpl; [|done|].
  - apply insert_subseteq_r; [|done].
    apply not_elem_of_dom. intros Hin.
    apply (is_fresh (dom (objects s))). by apply (subseteq_dom _ _ Hsub).
  - intros g [= <-]. apply not_elem_of_dom. intros Hin.
    apply (is_fresh (dom (objects s))). by apply (subseteq_dom _ _ Hsub).
Qed.

Lemma hoare_dict_setitem st g key v :
  objects st !! g = None →
  hoare (untouched st) (dict_setitem g key v) (λ _, untouched st).
Proof.
  intros Hg s [Hsub Hself]. unfold dict_setitem, deref. rewrite run_bind.
  destruct (objects s !! g) as [d|]; simpl; [|by split].
  split; simpl; [|done]. by apply insert_subseteq_r.
Qed.

Lemma untouched_outcome st e s : untouched st s → outcome st (inl e) s.
Proof. intros [Hsub Hself]. split; [done|]. left. by rewrite Hself. Qed.

Lemma hoare_global_model_load st g :
  hoare (untouched st) (global_model_load g)
    (λ r s, objects st ⊆ objects s
            ∧ match r with
              | inr _ => True
              | inl e =>
                  global_model (self s) = global_model (self st)
                  ∨ ∃ gd, load_state_dict gd (global_model (self st))
                          = (inl e, global_model (self s))
              end).
Proof.
  intros s [Hsub Hself]. unfold global_model_load, deref. rewrite run_bind.
  destruct (objects s !! g) as [gd|]; simpl.
  - unfold self_load. rewrite Hself.
    destruct (load_state_dict gd (global_model (self st))) as [[e|[]] m'] eqn:Hl;
      simpl; (split; [done|]); [|done].
    right. by exists gd.
  - split; [done|]. left. by rewrite Hself.
Qed.

Lemma aggregate_models_outcome st us ws :
  hoare (untouched st) (aggregate_models us ws) (outcome st).
Proof.
  unfold aggregate_models.
  eapply hoare_bind with (Qm := λ _, untouched st).
  { apply hoare_stateless. destruct ws; [apply stateless_ret|].
    apply stateless_mapM. intros _. apply stateless_py_truediv. }
  { intros e s. apply untouched_outcome. }
  intros weights.
  eapply hoare_bind with (Qm := λ _, untouched st).
  { apply hoare_stateless, stateless_list_getitem. }
  { intros e s. apply untouched_outcome. }
  intros first.
  eapply hoare_bind; [apply hoare_deepcopy | |].
  { intros e s [Hu _]. by apply untouched_outcome. }
  intros g.
  eapply hoare_bind with (Qm := λ _ s, untouched st s ∧ objects st !! g = None).
  { intros s [Hu Hg]. rewrite stateless_dict_keys. split; [done|]. by apply Hg. }
  { intros e s [Hu _]. by apply untouched_outcome. }
  intros keys s [Hu Hg]. revert s Hu.
  eapply hoare_bind with (Qm := λ _, untouched st).
  { apply hoare_for_each. intros key _.
    eapply hoare_bind with (Qm := λ _, untouched st).
    - apply hoare_stateless, stateless_weighted_terms.
    - done.
    - intros terms. by apply hoare_dict_setitem. }
  { intros e s. apply untouched_outcome. }
  intros [].
  eapply hoare_bind; [apply hoare_global_model_load | |].
  { intros e s [Hsub Hm]. by split. }
  intros [] s [Hsub _]. by split.
Qed.
End AggregationFrame.

(** ** aggregate_models: what a successful call computes *)

Lemma weighted_sums_lookup d0 ds ws keys k :
  weighted_sums d0 ds ws keys !! k
  = if decide (k ∈ keys) then Some (weighted_sum k ds ws) else d0 !! k.
Proof.
  unfold weighted_sums. revert d0.
  induction keys as [|key keys IH]; intros d0.
  - case_decide as Hin; [by apply not_elem_of_nil in Hin | done].
  - cbn [foldl]. rewrite IH.
    destruct (decide (k ∈ keys)) as [Hin|Hin].
    + rewrite (decide_True (P := k ∈ key :: keys)); [done | by right].
    + destruct (decide (k = key)) as [->|Hne].
      * rewrite (decide_True (P := key ∈ key :: keys)) by (by left).
        by rewrite lookup_insert_eq.
      * rewrite (decide_False (P := k ∈ key :: keys))
          by (by intros [?|?]%elem_of_cons).
        by rewrite lookup_insert_ne.
Qed.

Lemma elem_of_dict_keys (d : dict) k : k ∈ (map_to_list d).*1 ↔ k ∈ dom d.
Proof.
  rewrite elem_of_dom, list_elem_of_fmap. split.
  - intros ([k' v] & -> & Hin). apply elem_of_map_to_list in Hin. by exists v.
  - intros [v Hv]. exists (k, v). split; [done|]. by apply elem_of_map_to_list.
Qed.

Lemma weighted_sums_all_keys d0 ds ws k :
  weighted_sums d0 ds ws (map_to_list d0).*1 !! k
  = if decide (k ∈ dom d0) then Some (weighted_sum k ds ws) else None.
Proof.
  rewrite weighted_sums_lookup.
  destruct (decide (k ∈ dom d0)) as [Hin|Hin].
  - by rewrite decide_True by (by apply elem_of_dict_keys).
  - rewrite decide_False by (by rewrite elem_of_dict_keys).
    by apply not_elem_of_dom.
Qed.

Section AggregationRun.
Context {Mod : Type} `{!NNModule Mod}.
Implicit Types (s st : State Mod).

Lemma weighted_terms_run s key us ds ws :
  Forall2 (λ l d, objects s !! l = Some d) us ds →
  (∀ d, d ∈ ds → is_Some (d !! key)) →
  weighted_terms key us ws s
  = (inr (zip_with (λ (d : dict) w, (default 0 (d !! key) * w)%Qc) ds ws), s).
Proof.
  intros Hus Hkey. unfold weighted_terms. apply mapM_run.
  revert ws. induction Hus as [|l d us ds Hl _ IH]; intros ws; [constructor|].
  destruct ws as [|w ws]; [constructor|]. simpl. constructor.
  - destruct (Hkey d) as [v Hv]; [by left|].
    unfold dict_getitem, deref. simpl. rewrite !run_bind, Hl, Hv. simpl. done.
  - apply IH. intros d' Hd'. apply Hkey. by right.
Qed.

Lemma dict_setitem_run s (g : loc) key v (d : dict) :
  objects s !! g = Some d →
  dict_setitem g key v s
  = (inr tt, {| objects := <[g := <[key := v]> d]> (objects s); self := self s |}).
Proof. intros Hg. unfold dict_setitem, deref, store. by rewrite run_bind, Hg. Qed.

Lemma aggregate_loop keys : ∀ s (g : loc) us ds ws (d : dict),
  objects s !! g = Some d →
  g ∉ us →
  Forall2 (λ l d, objects s !! l = Some d) us ds →
  (∀ d' k, d' ∈ ds → k ∈ keys → is_Some (d' !! k)) →
  for_each keys (λ key,
    terms ← weighted_terms key us ws;
    dict_setitem g key (py_sum terms)) s
  = (inr tt, {| objects := <[g := weighted_sums d ds ws keys]> (objects s);
                self := self s |}).
Proof.
  induction keys as [|key keys IH]; intros s g us ds ws d Hg Hgus Hus Hkeys.
  - simpl. rewrite run_ret. f_equal. destruct s as [h sf]. simpl in *.
    f_equal. by rewrite insert_id.
  - cbn [for_each]. rewrite run_bind, run_bind.
    rewrite (weighted_terms_run s key us ds ws Hus)
      by (intros d' Hd'; apply Hkeys; [done | by left]).
    rewrite (dict_setitem_run s g key _ d Hg).
    fold (weighted_sum key ds ws).
    erewrite IH; simpl.
    + by rewrite insert_insert_eq.
    + apply lookup_insert_eq.
    + done.
    + apply Forall2_same_length_lookup_2; [by eapply Forall2_length|].
      intros i l d' Hl Hd'. rewrite lookup_insert_ne.
      * exact (Forall2_lookup_lr _ _ _ _ _ _ Hus Hl Hd').
      * intros <-. apply Hgus. by eapply list_elem_of_lookup_2.
    + intros d' k Hd' Hk. apply Hkeys; [done | by right].
Qed.

Lemma default_weights_run {A} (us : list A) s :
  mapM (λ _ : Z, py_truediv (S := State Mod) 1%Qc (len us)) (range (len us)) s
  = (inr (replicate (length us) (1 / Qc_of_Z (len us))%Qc), s).
Proof.
  destruct us as [|u us]; [done|].
  set (n := len (u :: us)). assert (Hn : n ≠ 0) by (unfold n, len; simpl; lia).
  replace (length (u :: us)) with (length (range n))
    by (rewrite length_range; unfold n, len; lia).
  generalize (range n). intros xs.
  apply mapM_run. induction xs as [|x xs IH]; simpl; constructor; [|done].
  unfold py_truediv. by rewrite decide_False.
Qed.

Lemma aggregate_models_run st l0 us d0 ds ws :
  Forall2 (λ l d, objects st !! l = Some d) (l0 :: us) (d0 :: ds) →
  (∀ d k, d ∈ d0 :: ds → k ∈ dom d0 → is_Some (d !! k)) →
  let g := fresh (dom (objects st)) in
  let gd := weighted_sums d0 (d0 :: ds) ws (map_to_list d0).*1 in
  aggregate_models (l0 :: us) (Some ws) st
  = (self_load gd ;; s ← get; mret (global_model (self s)))
      {| objects := <[g := gd]> (objects st); self := self st |}.
Proof.
  intros Hus Hkeys g gd.
  pose proof (Forall2_cons_1 _ _ _ _ _ Hus) as [Hl0 _].
  assert (Hg : objects st !! g = None)
    by apply not_elem_of_dom, is_fresh.
  unfold aggregate_models.
  erewrite run_bind_inr; [|reflexivity].
  erewrite run_bind_inr; [|reflexivity].
  erewrite (run_bind_inr (deepcopy l0));
    [|unfold deepcopy, deref; rewrite run_bind, Hl0; reflexivity].
  fold g.
  set (s1 := {| objects := <[g := d0]> (objects st); self := self st |}).
  erewrite (run_bind_inr (dict_keys g));
    [|unfold dict_keys, deref; rewrite run_bind; simpl; rewrite lookup_insert_eq; reflexivity].
  erewrite run_bind_inr;
    [|apply (aggregate_loop _ s1 g (l0 :: us) (d0 :: ds) ws d0)].
  - simpl. rewrite insert_insert_eq. fold gd.
    rewrite run_bind. unfold global_model_load, deref. rewrite run_bind. simpl.
    rewrite lookup_insert_eq. simpl. reflexivity.
  - apply lookup_insert_eq.
  - intros Hin. apply list_elem_of_lookup in Hin as [i Hi].
    destruct (Forall2_lookup_l _ _ _ _ _ Hus Hi) as (d & _ & Hd). congruence.
  - apply Forall2_same_length_lookup_2; [by eapply Forall2_length|].
    intros i l d Hl Hd. simpl. rewrite lookup_insert_ne.
    + exact (Forall2_lookup_lr _ _ _ _ _ _ Hus Hl Hd).
    + intros <-. pose proof (Forall2_lookup_lr _ _ _ _ _ _ Hus Hl Hd). congruence.
  - intros d k Hd Hk. apply Hkeys; [done|]. by apply elem_of_dict_keys.
Qed.
End AggregationRun.

(** ** aggregate_models on a torch module *)

Lemma torch_load_same_keys (gd own : dict) : dom gd = dom own → torch_load gd own = gd.
Proof.
  intros Hdom. apply map_eq. intros k. unfold torch_load. rewrite map_lookup_imap.
  destruct (own !! k) as [old|] eqn:Hown; simpl.
  - assert (Hk : k ∈ dom gd) by (rewrite Hdom; by apply elem_of_dom).
    apply elem_of_dom in Hk as [v Hv]. by rewrite Hv.
  - symmetry. apply not_elem_of_dom. rewrite Hdom. by apply not_elem_of_dom.
Qed.

Lemma dom_weighted_sums d0 ds ws : dom (weighted_sums d0 ds ws (map_to_list d0).*1) = dom d0.
Proof.
  apply set_eq. intros k. rewrite !elem_of_dom, weighted_sums_all_keys.
  case_decide as Hk; [|by rewrite <- elem_of_dom].
  split; [by rewrite <- elem_of_dom | by eauto].
Qed.

(** With updates that carry the keys of the global model, [load_state_dict]
    succeeds and installs the aggregate. *)
Lemma aggregate_models_torch_run (st : State TorchModule) l0 us d0 ds ws :
  Forall2 (λ l d, objects st !! l = Some d) (l0 :: us) (d0 :: ds) →
  Forall (λ d : dict, dom d = dom (parameters (global_model (self st)))) (d0 :: ds) →
  let gd := weighted_sums d0 (d0 :: ds) ws (map_to_list d0).*1 in
  aggregate_models (l0 :: us) (Some ws) st
  = (inr {| parameters := gd |},
     {| objects := <[fresh (dom (objects st)) := gd]> (objects st);
        self := {| global_model := {| parameters := gd |};
                   num_clients := num_clients (self st);
                   client_fraction := client_fraction (self st) |} |}).
Proof.
  intros Hall Hdom gd. rewrite Forall_forall in Hdom.
  assert (Hd0 : dom d0 = dom (parameters (global_model (self st))))
    by (apply Hdom; by left).
  rewrite (aggregate_models_run st l0 us d0 ds ws Hall); last first.
  { intros d k Hd Hk. apply elem_of_dom. rewrite (Hdom d Hd), <- Hd0. done. }
  fold gd.
  assert (Hgd : dom gd = dom (parameters (global_model (self st))))
    by (unfold gd; by rewrite dom_weighted_sums).
  rewrite run_bind. unfold self_load. simpl.
  rewrite decide_True by done. simpl.
  by rewrite torch_load_same_keys.
Qed.

(** The same with the entries spelled out. *)
Lemma aggregate_models_torch_entries (st : State TorchModule) us ds ws :
  us ≠ [] →
  Forall2 (λ l d, objects st !! l = Some d) us ds →
  Forall (λ d : dict, dom d = dom (parameters (global_model (self st)))) ds →
  ∃ st',
    aggregate_models us (Some ws) st = (inr (global_model (self st')), st')
    ∧ ∀ k, parameters (global_model (self st')) !! k
           = if decide (k ∈ dom (parameters (global_model (self st))))
             then Some (weighted_sum k ds ws) else None.
Proof.
  intros Hne Hus Hdom.
  destruct Hus as [|l0 d0 us ds Hl0 Hus]; [done|].
  pose proof (proj1 (Forall_forall _ _) Hdom) as Hdom'.
  assert (Hall : Forall2 (λ l d, objects st !! l = Some d) (l0 :: us) (d0 :: ds))
    by (by constructor).
  rewrite (aggregate_models_torch_run st l0 us d0 ds ws Hall Hdom).
  match goal with |- ∃ st', (_, ?s) = _ ∧ _ => exists s end.
  split; [reflexivity|]. simpl. intros k.
  rewrite weighted_sums_all_keys, (Hdom' d0) by (by left). done.
Qed.

Lemma two_updates_allocated :
  Forall2 (λ (l : loc) (d : dict), objects two_updates !! l = Some d) [0%nat; 1%nat]
    [ {[ "w" := Qc_of_Z 2 ]}; {[ "w" := Qc_of_Z 4 ]} ].
Proof. repeat constructor. Qed.

Lemma two_updates_keys :
  Forall (λ d : dict, dom d = dom (parameters (global_model (self two_updates))))
    [ {[ "w" := Qc_of_Z 2 ]}; {[ "w" := Qc_of_Z 4 ]} ].
Proof. repeat constructor. Qed.

(** The end-to-end scenario of the weights [[1.0, 1.0]]: the call returns, and
    the global parameter is the plain sum. *)
Lemma aggregate_models_weights_one_one :
  ∃ st',
    aggregate_models [0%nat; 1%nat] (Some [1%Qc; 1%Qc]) two_updates
    = (inr (global_model (self st')), st')
    ∧ parameters (global_model (self st')) !! "w" = Some (Qc_of_Z 6).
Proof.
  destruct (aggregate_models_torch_entries two_updates [0%nat; 1%nat] _ [1%Qc; 1%Qc]
              ltac:(done) two_updates_allocated two_updates_keys)
    as (st' & Hrun & Hw).
  exists st'. split; [done|]. rewrite Hw, decide_True by (simpl; set_solver).
  f_equal. apply Qc_is_canon. reflexivity.
Qed.




(** ** Uniform weights *)

(** With one weight [c] for all, the weighted sum is the sum times [c]. *)
Lemma weighted_sum_uniform key (ds : list dict) (vs : list Qc) (c : Qc) :
  Forall2 (λ d v, d !! key = Some v) ds vs →
  weighted_sum key ds (replicate (length ds) c) = (py_sum vs * c)%Qc.
Proof.
  intros Hvs. unfold weighted_sum, py_sum.
  assert (Hacc : ∀ a,
    foldl Qcplus (a * c)%Qc
      (zip_with (λ (d : dict) w, (default 0 (d !! key) * w)%Qc) ds
         (replicate (length ds) c))
    = (foldl Qcplus a vs * c)%Qc).
  { induction Hvs as [|d v ds vs Hv _ IH]; intros a; [done|].
    simpl. rewrite Hv. simpl. rewrite <- IH. f_equal. ring. }
  rewrite <- Hacc. f_equal. ring.
Qed.

(** The round loop of [main] passes the weight [1.0] for every selected
    client (lines 233-241): the entry it aggregates is the plain sum of the
    updates' values, [len(client_updates)] times their mean. *)
Remark weighted_sum_unit_weights key (ds : list dict) (vs : list Qc) :
  Forall2 (λ d v, d !! key = Some v) ds vs →
  weighted_sum key ds (replicate (length ds) 1%Qc) = py_sum vs.
Proof. intros Hvs. rewrite (weighted_sum_uniform key ds vs 1 Hvs). ring. Qed.

Lemma aggregate_models_default_weights {Mod} `{!NNModule Mod} (st : State Mod)
    (us : list loc) :
  aggregate_models us None st
  = aggregate_models us
      (Some (replicate (length us) (1 / Qc_of_Z (len us))%Qc)) st.
Proof.
  unfold aggregate_models.
  rewrite (run_bind_inr _ _ _ _ _ (default_weights_run us st)). reflexivity.
Qed.



Example aggregate_models_two_four_halves :
  parameters
    (global_model (self
       (aggregate_models [0%nat; 1%nat] (Some [Q2Qc (1 # 2); Q2Qc (1 # 2)])
          two_updates).2))
  !! "w" = Some (Qc_of_Z 3).
Proof.
  destruct (aggregate_models_torch_entries two_updates [0%nat; 1%nat] _
              [Q2Qc (1 # 2); Q2Qc (1 # 2)]
              ltac:(done) two_updates_allocated two_updates_keys)
    as (st' & -> & Hw).
  simpl. rewrite Hw, decide_True by (simpl; set_solver).
  f_equal. apply Qc_is_canon. reflexivity.
Qed.

(** ** Failed calls *)




(** ** The caller's updates *)



(** * Part III: further properties of the module *)

(** ** Rationals *)

Lemma Qc_div_bounds (x lo hi : Qc) (n : Z) :
  0 < n →
  (lo * Qc_of_Z n ≤ x ≤ hi * Qc_of_Z n)%Qc →
  (lo ≤ x / Qc_of_Z n ≤ hi)%Qc.
Proof.
  intros Hn [Hlo Hhi].
  assert (Hpos : (0 < Qc_of_Z n)%Qc)
    by (rewrite <- Z2Qc_inj_0; by apply (proj1 (Z2Qc_inj_lt 0 n))).
  assert (Hne : Qc_of_Z n ≠ 0%Qc) by (intros Heq; rewrite Heq in Hpos; by apply Qclt_not_eq in Hpos).
  assert (Hx : (x / Qc_of_Z n * Qc_of_Z n = x)%Qc) by (field; done).
  split.
  - apply (Qcmult_le_mono_pos_r _ _ (Qc_of_Z n) Hpos). by rewrite Hx.
  - apply (Qcmult_le_mono_pos_r _ _ (Qc_of_Z n) Hpos). by rewrite Hx.
Qed.

(** ** select_clients: every outcome *)

Lemma py_int_Qc_of_Z (n : Z) : py_int (Qc_of_Z n) = n.
Proof.
  unfold py_int. case_decide; [apply Qfloor_Z | apply Qceiling_Z].
Qed.

Lemma num_selected_bounds {R : PyRandom} {Mod} (srv : FederatedServer Mod) (g : rng R)
    ids g' :
  select_clients srv g = (inr ids, g') →
  let k := Z.max 1 (py_int (Qc_of_Z (num_clients srv) * client_fraction srv)%Qc) in
  1 ≤ k ≤ num_clients srv.
Proof.
  intros Hrun k.
  destruct (decide (0 ≤ k ≤ len (range (num_clients srv)))) as [Hk|Hk].
  - unfold len in Hk. rewrite length_range in Hk. subst k. lia.
  - unfold select_clients in Hrun. fold k in Hrun.
    rewrite (run_bind_inl _ _ _ ValueError g) in Hrun; [done|].
    by apply sample_fail.
Qed.



(** X2.  With the default fraction 1.0 and at least one client,
    [select_clients] returns every client id exactly once, in some order. *)
Theorem select_clients_all (R : PyRandom) {Mod} (srv : FederatedServer Mod)
    (g : rng R) :
  1 ≤ num_clients srv →
  client_fraction srv = 1%Qc →
  ∃ ids g', select_clients srv g = (inr ids, g') ∧ ids ≡ₚ range (num_clients srv).
Proof.
  intros Hn Hf.
  assert (Hk : Z.max 1 (py_int (Qc_of_Z (num_clients srv) * client_fraction srv)%Qc)
               = num_clients srv).
  { rewrite Hf, Qcmult_1_r, py_int_Qc_of_Z. lia. }
  destruct (sample_ok R (range (num_clients srv)) (num_clients srv) g)
    as (ys & g' & Hs & Hlen & rest & Hrest).
  { rewrite len_range by lia. lia. }
  exists ys, g'. split.
  - unfold select_clients. rewrite Hk, (run_bind_inr _ _ _ _ _ Hs). done.
  - assert (rest = []) as ->; [|by rewrite app_nil_r in Hrest].
    apply Permutation_length in Hrest.
    rewrite length_app, length_range in Hrest. unfold len in Hlen.
    destruct rest; [done | simpl in Hrest; lia].
Qed.

Lemma select_clients_all_witness :
  ∃ ids g',
    select_clients (R := lcg_random) server_all_clients 42 = (inr ids, g')
    ∧ ids ≡ₚ range 5.
Proof.
  apply (select_clients_all lcg_random server_all_clients 42).
  - simpl. lia.
  - reflexivity.
Defined.



(** ** Client.train: epochs and losses *)

Section TrainFacts.
Context {Net Batch : Type}.
Context (train_mode : Net → Net).
Context (train_step : Batch → Net → Qc * Net).
Context `{!NNModule Net}.
Implicit Types c : Client Net Batch.

(** X4.  [Client.train] with [epochs <= 0] runs no training step.  For
    [epochs = 0] it raises [ZeroDivisionError] at [total_loss / epochs]; for a
    negative [epochs] it returns the state dict of the model and the loss 0.
    In both cases the model has only been put in training mode. *)
Theorem train_no_epochs c (epochs : Z) :
  epochs ≤ 0 →
  train train_mode train_step epochs c
  = (if decide (epochs = 0) then inl ZeroDivisionError
     else inr (state_dict (train_mode (model c)), 0%Qc),
     set_model (train_mode (model c)) c).
Proof.
  intros Hep. unfold train.
  rewrite (run_bind_inr get _ c c c eq_refl).
  rewrite (run_bind_inr (put _) _ c tt (set_model (train_mode (model c)) c) eq_refl).
  replace (Z.to_nat epochs) with 0%nat by lia. cbn [train_epochs].
  rewrite run_bind, run_ret. unfold py_truediv.
  case_decide; [done|]. rewrite run_bind, run_ret. simpl.
  assert (0 / Qc_of_Z epochs = 0)%Qc as -> by (unfold Qcdiv; ring). done.
Qed.

Lemma train_batches_bounds (lo hi : Qc) (bs : list Batch) :
  (∀ b net, lo ≤ (train_step b net).1 ≤ hi)%Qc →
  ∀ (acc : Qc) c,
  ∃ l c',
    train_batches train_step bs acc c = (inr l, c')
    ∧ data_loader c' = data_loader c
    ∧ (acc + lo * Qc_of_Z (len bs) ≤ l ≤ acc + hi * Qc_of_Z (len bs))%Qc.
Proof.
  intros Hstep. induction bs as [|b bs IH]; intros acc c.
  - exists acc, c.
    assert (Qc_of_Z (len (@nil Batch)) = 0%Qc) as -> by apply Z2Qc_inj_0.
    rewrite !Qcmult_0_r, Qcplus_0_r. done.
  - cbn [train_batches]. rewrite run_bind. unfold train_batch at 1.
    specialize (Hstep b (model c)).
    destruct (train_step b (model c)) as [loss net] eqn:Hs. simpl in Hstep.
    destruct (IH (acc + loss)%Qc (set_model net c)) as (l & c' & Hrun & Hdl & Hlo & Hhi).
    exists l, c'. split_and!; [done | done | |].
    + etrans; [|exact Hlo].
      replace (len (b :: bs)) with (1 + len bs) by (unfold len; simpl; lia).
      rewrite Z2Qc_inj_add, Z2Qc_inj_1, Qcmult_plus_distr_r, Qcmult_1_r.
      rewrite !Qcplus_assoc. apply Qcplus_le_mono_r, Qcplus_le_mono_l. apply Hstep.
    + etrans; [exact Hhi|].
      replace (len (b :: bs)) with (1 + len bs) by (unfold len; simpl; lia).
      rewrite Z2Qc_inj_add, Z2Qc_inj_1, Qcmult_plus_distr_r, Qcmult_1_r.
      rewrite !Qcplus_assoc. apply Qcplus_le_mono_r, Qcplus_le_mono_l. apply Hstep.
Qed.

Lemma train_epoch_bounds (lo hi : Qc) c (total : Qc) :
  (∀ b net, lo ≤ (train_step b net).1 ≤ hi)%Qc →
  data_loader c ≠ [] →
  ∃ t c',
    train_epoch train_step total c = (inr t, c')
    ∧ data_loader c' = data_loader c
    ∧ (total + lo ≤ t ≤ total + hi)%Qc.
Proof.
  intros Hstep Hdl. unfold train_epoch.
  rewrite (run_bind_inr get _ c c c eq_refl).
  destruct (train_batches_bounds lo hi (data_loader c) Hstep 0%Qc c)
    as (l & c' & Hrun & Hdl' & Hb).
  rewrite (run_bind_inr _ _ _ _ _ Hrun).
  assert (Hn : 0 < len (data_loader c)).
  { unfold len. destruct (data_loader c); [done | simpl; lia]. }
  unfold py_truediv. rewrite decide_False by lia.
  rewrite run_bind, run_ret, run_ret.
  exists (total + l / Qc_of_Z (len (data_loader c)))%Qc, c'.
  rewrite !Qcplus_0_l in Hb.
  destruct (Qc_div_bounds l lo hi _ Hn Hb) as [Hlo Hhi].
  split_and!; [done | done | |]; by apply (proj1 (Qcplus_le_mono_l _ _ _)).
Qed.

Lemma train_epochs_bounds (lo hi : Qc) (epochs : nat) :
  (∀ b net, lo ≤ (train_step b net).1 ≤ hi)%Qc →
  ∀ c (total : Qc),
  data_loader c ≠ [] →
  ∃ t c',
    train_epochs train_step epochs total c = (inr t, c')
    ∧ data_loader c' = data_loader c
    ∧ (total + lo * Qc_of_Z (Z.of_nat epochs) ≤ t
       ≤ total + hi * Qc_of_Z (Z.of_nat epochs))%Qc.
Proof.
  intros Hstep. induction epochs as [|n IH]; intros c total Hdl.
  - exists total, c. change (Z.of_nat 0) with 0.
    rewrite Z2Qc_inj_0, !Qcmult_0_r, Qcplus_0_r. done.
  - cbn [train_epochs].
    destruct (train_epoch_bounds lo hi c total Hstep Hdl) as (t & c' & Hrun & Hdl' & Hlo & Hhi).
    rewrite (run_bind_inr _ _ _ _ _ Hrun).
    destruct (IH c' t) as (t' & c'' & Hrun' & Hdl'' & Hlo' & Hhi'); [by rewrite Hdl'|].
    exists t', c''. split_and!; [done | congruence | |].
    + etrans; [|exact Hlo'].
      replace (Z.of_nat (S n)) with (1 + Z.of_nat n) by lia.
      rewrite Z2Qc_inj_add, Z2Qc_inj_1, Qcmult_plus_distr_r, Qcmult_1_r, Qcplus_assoc.
      by apply (proj1 (Qcplus_le_mono_r _ _ _)).
    + etrans; [exact Hhi'|].
      replace (Z.of_nat (S n)) with (1 + Z.of_nat n) by lia.
      rewrite Z2Qc_inj_add, Z2Qc_inj_1, Qcmult_plus_distr_r, Qcmult_1_r, Qcplus_assoc.
      by apply (proj1 (Qcplus_le_mono_r _ _ _)).
Qed.

(** X5.  For a loader with at least one batch and [epochs >= 1],
    [Client.train] returns the state dict of the trained model of the client
    and a loss that is an average of the losses of the steps: when every step
    loss lies in [[lo, hi]], so does the loss returned.  The loader of the
    client is as it was. *)
Theorem train_loss_bounds (lo hi : Qc) c (epochs : Z) :
  (∀ b net, lo ≤ (train_step b net).1 ≤ hi)%Qc →
  data_loader c ≠ [] →
  1 ≤ epochs →
  ∃ loss c',
    train train_mode train_step epochs c = (inr (state_dict (model c'), loss), c')
    ∧ data_loader c' = data_loader c
    ∧ (lo ≤ loss ≤ hi)%Qc.
Proof.
  intros Hstep Hdl Hep. unfold train.
  rewrite (run_bind_inr get _ c c c eq_refl).
  rewrite (run_bind_inr (put _) _ c tt (set_model (train_mode (model c)) c) eq_refl).
  destruct (train_epochs_bounds lo hi (Z.to_nat epochs) Hstep
              (set_model (train_mode (model c)) c) 0%Qc Hdl)
    as (t & c' & Hrun & Hdl' & Hb).
  rewrite (run_bind_inr _ _ _ _ _ Hrun).
  unfold py_truediv. rewrite decide_False by lia.
  rewrite run_bind, run_ret.
  exists (t / Qc_of_Z epochs)%Qc, c'. split; [done|]. split; [done|].
  apply Qc_div_bounds; [lia|]. rewrite Z2Nat.id, !Qcplus_0_l in Hb by lia. done.
Qed.
End TrainFacts.

Lemma train_no_epochs_witness :
  train id unit_loss_step (-1) busy_client
  = (if decide (-1 = 0) then inl ZeroDivisionError
     else inr (state_dict (id (model busy_client)), 0%Qc),
     set_model (id (model busy_client)) busy_client).
Proof. apply (train_no_epochs id unit_loss_step busy_client (-1)). lia. Defined.

Lemma train_loss_bounds_witness :
  ∃ loss c',
    train id unit_loss_step 2 busy_client = (inr (state_dict (model c'), loss), c')
    ∧ data_loader c' = data_loader busy_client
    ∧ (1 ≤ loss ≤ 1)%Qc.
Proof.
  apply (train_loss_bounds id unit_loss_step 1%Qc 1%Qc busy_client 2).
  - intros b net. split; apply Qcle_refl.
  - discriminate.
  - lia.
Defined.

(** ** Client.evaluate and evaluate_global_model *)

Lemma py_truediv_zero {S} (x : Qc) (s : S) :
  py_truediv x 0 s = (inl ZeroDivisionError, s).
Proof. reflexivity. Qed.

Lemma py_truediv_nonzero {S} (x : Qc) (n : Z) (s : S) :
  n ≠ 0 → py_truediv x n s = (inr (x / Qc_of_Z n)%Qc, s).
Proof. intros Hn. unfold py_truediv. by destruct (decide (n = 0)). Qed.

Section EvaluationFacts.
Context {Net X : Type}.
Context (eval_mode : Net → Net).
Context (predict : Net → X → Z).
Context (criterion : Net → list (X * Z) → Qc).

Lemma batch_correct_bounds (net : Net) (batch : list (X * Z)) :
  0 ≤ batch_correct predict net batch ≤ len batch.
Proof.
  unfold batch_correct, len. split; [lia|].
  apply inj_le, length_filter.
Qed.

Lemma batch_correct_app (net : Net) (b1 b2 : list (X * Z)) :
  batch_correct predict net (b1 ++ b2)
  = batch_correct predict net b1 + batch_correct predict net b2.
Proof. unfold batch_correct, len. rewrite filter_app, length_app. lia. Qed.

(** The counts of a pass do not depend on how the examples are batched. *)
Lemma evaluate_batches_counts (net : Net) (batches : list (list (X * Z))) :
  ∀ correct total (total_loss : Qc),
  ∃ total_loss',
    foldl (evaluate_batch predict criterion net) (correct, total, total_loss) batches
    = (correct + batch_correct predict net (concat batches),
       total + len (concat batches), total_loss').
Proof.
  induction batches as [|b bs IH]; intros correct total total_loss.
  - exists total_loss. simpl. unfold batch_correct, len. simpl. f_equal. f_equal; lia.
  - simpl.
    destruct (IH (correct + batch_correct predict net b) (total + len b)
                 (total_loss + criterion net b)%Qc) as [l' ->].
    exists l'. rewrite batch_correct_app. unfold len. rewrite length_app.
    f_equal. f_equal; lia.
Qed.

Lemma evaluate_run (c : Client Net (list (X * Z))) :
  let net := eval_mode (model c) in
  let c' := set_model net c in
  ∃ total_loss,
    evaluate eval_mode predict criterion c
    = (accuracy ← py_truediv
                    (Qc_of_Z (100 * batch_correct predict net (concat (data_loader c))))
                    (len (concat (data_loader c)));
       avg_loss ← py_truediv total_loss (len (data_loader c));
       mret (accuracy, avg_loss)) c'.
Proof.
  intros net c'. unfold evaluate.
  rewrite (run_bind_inr get _ c c c eq_refl).
  rewrite (run_bind_inr (put _) _ c tt c' eq_refl).
  rewrite (run_bind_inr get _ c' c' c' eq_refl).
  destruct (evaluate_batches_counts net (data_loader c) 0 0 0%Qc) as [l Hl].
  exists l.
  change (model c') with net. change (data_loader c') with (data_loader c).
  rewrite Hl.
  rewrite !Z.add_0_l. reflexivity.
Qed.


(** X7.  When [Client.evaluate] returns, the accuracy is 100 times the number
    of examples of the loader the model in evaluation mode classifies
    correctly, over the number of examples: it does not depend on how the
    examples are batched, and it lies between 0 and 100.  The client differs
    only in the mode of its model. *)
Theorem evaluate_accuracy (c c' : Client Net (list (X * Z))) (accuracy avg_loss : Qc) :
  evaluate eval_mode predict criterion c = (inr (accuracy, avg_loss), c') →
  let net := eval_mode (model c) in
  let examples := concat (data_loader c) in
  c' = set_model net c
  ∧ accuracy = (Qc_of_Z (100 * batch_correct predict net examples)
                / Qc_of_Z (len examples))%Qc
  ∧ (0 ≤ accuracy ≤ Qc_of_Z 100)%Qc.
Proof.
  intros Hrun net examples.
  destruct (evaluate_run c) as [l Heq]. rewrite Heq in Hrun. clear Heq.
  fold net examples in Hrun.
  rewrite run_bind in Hrun. unfold py_truediv at 1 in Hrun.
  destruct (decide (len examples = 0)) as [|Hne]; [done|].
  rewrite run_ret, run_bind in Hrun. unfold py_truediv in Hrun.
  destruct (decide (len (data_loader c) = 0)); [done|].
  rewrite run_ret, run_ret in Hrun. injection Hrun as <- <- <-.
  split; [done|]. split; [done|].
  pose proof (batch_correct_bounds net examples) as [H0 H1].
  assert (Hn : 0 < len examples) by (pose proof (len_nonneg examples); lia).
  apply Qc_div_bounds; [done|].
  rewrite Qcmult_0_l, <- Z2Qc_inj_mul. split.
  - rewrite <- Z2Qc_inj_0. apply (proj1 (Z2Qc_inj_le _ _)). lia.
  - apply (proj1 (Z2Qc_inj_le _ _)). nia.
Qed.
Context (time_at : nat → Qc).

Lemma evaluate_global_batches_run (batches : list (list (X * Z))) :
  ∀ (counts : Z * Z * Qc) (inference_time : Qc) (s : EvalState Net),
  ∃ inference_time',
    evaluate_global_batches predict criterion time_at batches (counts, inference_time) s
    = (inr (foldl (evaluate_batch predict criterion (eval_model s)) counts batches,
            inference_time'),
       {| eval_model := eval_model s; clock := (clock s + 2 * length batches)%nat |}).
Proof.
  induction batches as [|b bs IH]; intros counts t s.
  - exists t. simpl. rewrite Nat.add_0_r. by destruct s.
  - simpl.
    set (s2 := {| eval_model := eval_model s; clock := S (S (clock s)) |}).
    set (acc := (evaluate_batch predict criterion (eval_model s) counts b,
                 (t + (time_at (S (clock s)) - time_at (clock s)))%Qc)).
    rewrite (run_bind_inr _ _ s acc s2) by reflexivity.
    subst acc.
    destruct (IH (evaluate_batch predict criterion (eval_model s) counts b)
                 (t + (time_at (S (clock s)) - time_at (clock s)))%Qc s2) as [t' ->].
    exists t'. simpl. do 2 f_equal. lia.
Qed.

(** X8.  [evaluate_global_model] on a model and a loader reports the accuracy
    and the loss that [Client.evaluate] reports for a client with that model
    and that loader, and raises when it raises, with the same exception,
    whatever the clock shows; it reads the clock twice per batch. *)
Theorem evaluate_global_model_agrees (cid : Z) (net : Net) (loader : list (list (X * Z)))
    (now : nat) :
  let local := evaluate eval_mode predict criterion
                 {| client_id := cid; data_loader := loader; model := net |} in
  let global := evaluate_global_model eval_mode predict criterion time_at loader
                  {| eval_model := net; clock := now |} in
  global.2 = {| eval_model := eval_mode net; clock := (now + 2 * length loader)%nat |}
  ∧ match local.1, global.1 with
    | inr (accuracy, avg_loss), inr (accuracy', avg_loss', _) =>
        accuracy' = accuracy ∧ avg_loss' = avg_loss
    | inl e, inl e' => e' = e
    | _, _ => False
    end.
Proof.
  intros local global. subst local global.
  unfold evaluate, evaluate_global_model.
  set (c := {| client_id := cid; data_loader := loader; model := net |}).
  set (s := {| eval_model := net; clock := now |}).
  set (s1 := {| eval_model := eval_mode net; clock := now |}).
  rewrite (run_bind_inr get _ c c c eq_refl).
  rewrite (run_bind_inr (put _) _ c tt (set_model (eval_mode net) c) eq_refl).
  rewrite (run_bind_inr get _ _ (set_model (eval_mode net) c) (set_model (eval_mode net) c) eq_refl).
  rewrite (run_bind_inr get _ s s s eq_refl).
  rewrite (run_bind_inr (put _) _ s tt s1 eq_refl).
  destruct (evaluate_global_batches_run loader (0, 0, 0%Qc) 0%Qc s1) as [t Ht].
  rewrite (run_bind_inr _ _ _ _ _ Ht).
  change (model (set_model (eval_mode net) c)) with (eval_mode net).
  change (data_loader (set_model (eval_mode net) c)) with loader.
  change (eval_model s1) with (eval_mode net).
  destruct (foldl _ _ loader) as [[correct total] total_loss].
  destruct (decide (total = 0)) as [->|Htotal].
  { rewrite !(run_bind_inl _ _ _ _ _ (py_truediv_zero _ _)). done. }
  rewrite !(run_bind_inr _ _ _ _ _ (py_truediv_nonzero _ _ _ Htotal)).
  destruct (decide (len loader = 0)) as [Hlen|Hlen].
  { rewrite Hlen, !(run_bind_inl _ _ _ _ _ (py_truediv_zero _ _)). done. }
  rewrite !(run_bind_inr _ _ _ _ _ (py_truediv_nonzero _ _ _ Hlen)).
  done.
Qed.
End EvaluationFacts.


Lemma evaluate_accuracy_witness :
  let accuracy := (Qc_of_Z (100 * 3) / Qc_of_Z 5)%Qc in
  let net := id (model labelled_client) in
  let examples := concat (data_loader labelled_client) in
  set_model net labelled_client = set_model net labelled_client
  ∧ accuracy = (Qc_of_Z (100 * batch_correct predict_zero net examples)
                / Qc_of_Z (len examples))%Qc
  ∧ (0 ≤ accuracy ≤ Qc_of_Z 100)%Qc.
Proof.
  apply (evaluate_accuracy id predict_zero zero_criterion labelled_client
           (set_model (id (model labelled_client)) labelled_client)
           (Qc_of_Z (100 * 3) / Qc_of_Z 5)%Qc ((0 + 0 + 0) / Qc_of_Z 2)%Qc).
  reflexivity.
Defined.

(** ** split_data: degenerate arguments *)

Lemma range_nonpos n : n ≤ 0 → range n = [].
Proof. intros Hn. unfold range. by replace (Z.to_nat n) with 0%nat by lia. Qed.



(** X10.  [split_data] returns an empty list of shards, and raises nothing,
    for a negative [num_clients] and for a method that is neither ['iid'] nor
    ['non_iid']. *)
Theorem split_data_no_shards (R : PyRandom) {X : Type} (dataset : list (X * Z))
    (num_clients : Z) (method : string) (g : rng R) :
  num_clients < 0 ∨ (method ≠ "iid" ∧ method ≠ "non_iid") →
  ∃ g', split_data dataset num_clients method g = (inr [], g').
Proof.
  intros Hcase. unfold split_data.
  destruct (decide (method = "iid")) as [->|Hiid].
  - destruct Hcase as [Hn | [? _]]; [|done].
    destruct (shuffle_run R (range (len dataset)) g) as (indices & g' & Hs & _).
    exists g'. rewrite (run_bind_inr _ _ _ _ _ Hs).
    unfold py_floordiv. rewrite decide_False by lia.
    rewrite run_bind, run_ret, (range_nonpos num_clients) by lia. done.
  - destruct (decide (method = "non_iid")) as [->|Hnon].
    + destruct Hcase as [Hn | [_ ?]]; [|done].
      exists g. unfold py_floordiv. rewrite decide_False by lia.
      rewrite run_bind, run_ret, (range_nonpos num_clients) by lia. done.
    + by exists g.
Qed.

Lemma split_data_no_shards_witness :
  ∃ g', split_data (R := lcg_random) five_examples 3 "dirichlet" 42 = (inr [], g').
Proof.
  apply (split_data_no_shards lcg_random five_examples 3 "dirichlet" 42).
  right. split; discriminate.
Defined.

(** ** split_data: the non-IID shards *)

Lemma NoDup_sorted_set xs : NoDup (sorted_set xs).
Proof. unfold sorted_set. rewrite merge_sort_Permutation. apply NoDup_remove_dups. Qed.

Lemma elem_of_sorted_set xs x : x ∈ sorted_set xs ↔ x ∈ xs.
Proof. unfold sorted_set. by rewrite merge_sort_Permutation, elem_of_remove_dups. Qed.

Lemma split_data_non_iid_run (R : PyRandom) {X} (dataset : list (X * Z)) num_clients
    (g : rng R) :
  num_clients ≠ 0 →
  split_data dataset num_clients "non_iid" g = (inr (non_iid_shards dataset num_clients), g).
Proof.
  intros Hn. unfold split_data. rewrite decide_False by discriminate.
  rewrite decide_True by done. unfold py_floordiv. rewrite decide_False by done.
  reflexivity.
Qed.

Lemma split_data_non_iid_inv (R : PyRandom) {X} (dataset : list (X * Z)) num_clients
    (g g' : rng R) shards :
  split_data dataset num_clients "non_iid" g = (inr shards, g') →
  shards = non_iid_shards dataset num_clients.
Proof.
  intros Hrun. destruct (decide (num_clients = 0)) as [->|Hn].
  - unfold split_data in Hrun. rewrite decide_False in Hrun by discriminate.
    rewrite decide_True in Hrun by done. discriminate.
  - rewrite split_data_non_iid_run in Hrun by done. by injection Hrun as <- _.
Qed.

Lemma elem_of_enumerate {A} (xs : list A) idx (x : A) :
  (idx, x) ∈ zip (range (len xs)) xs ↔ 0 ≤ idx ∧ xs !! Z.to_nat idx = Some x.
Proof.
  rewrite list_elem_of_lookup. split.
  - intros [p Hp]. apply lookup_zip_with_Some in Hp as (i & y & [= -> ->] & Hi & Hy).
    pose proof (lookup_lt_Some _ _ _ Hy) as Hlt.
    rewrite lookup_range in Hi by (unfold len; lia). injection Hi as <-.
    split; [lia|]. by rewrite Nat2Z.id.
  - intros [H0 Hx]. exists (Z.to_nat idx). apply lookup_zip_with_Some.
    exists idx, x. split_and!; [done| |done].
    pose proof (lookup_lt_Some _ _ _ Hx) as Hlt.
    rewrite lookup_range by (unfold len; lia). f_equal. lia.
Qed.

Lemma non_iid_shards_lookup {X} (dataset : list (X * Z)) num_clients (i : nat) s :
  non_iid_shards dataset num_clients !! i = Some s →
  Z.of_nat i < num_clients
  ∧ subset_dataset s = dataset
  ∧ subset_indices s
    = (filter (λ p, p.2.2 ∈ label_group dataset num_clients (Z.of_nat i))
              (zip (range (len dataset)) dataset)).*1.
Proof.
  unfold non_iid_shards. rewrite list_lookup_fmap. intros Hi.
  assert (Hlt : Z.of_nat i < num_clients).
  { apply fmap_Some in Hi as (j & Hj & _).
    apply lookup_lt_Some in Hj. rewrite length_range in Hj. lia. }
  rewrite lookup_range in Hi by done. simpl in Hi. by injection Hi as <-.
Qed.

Lemma elem_of_shard_indices {X} (dataset : list (X * Z)) (labels : list Z) idx :
  idx ∈ (filter (λ p : Z * (X * Z), p.2.2 ∈ labels) (zip (range (len dataset)) dataset)).*1
  ↔ ∃ e, 0 ≤ idx ∧ dataset !! Z.to_nat idx = Some e ∧ e.2 ∈ labels.
Proof.
  rewrite list_elem_of_fmap. split.
  - intros ([idx' e] & -> & Hin). apply list_elem_of_filter in Hin as [Hl Hin].
    apply elem_of_enumerate in Hin as [H0 He]. by exists e.
  - intros (e & H0 & He & Hl). exists (idx, e). split; [done|].
    apply list_elem_of_filter. split; [done|]. by apply elem_of_enumerate.
Qed.

Lemma NoDup_shard_indices {X} (dataset : list (X * Z)) (labels : list Z) :
  NoDup (filter (λ p : Z * (X * Z), p.2.2 ∈ labels) (zip (range (len dataset)) dataset)).*1.
Proof.
  eapply (sublist_NoDup _ (zip (range (len dataset)) dataset).*1).
  - rewrite fst_zip; [apply NoDup_range|]. rewrite length_range. unfold len. lia.
  - apply fmap_sublist. apply sublist_filter.
Qed.

Lemma elem_of_label_group {X} (dataset : list (X * Z)) num_clients i x :
  1 ≤ num_clients → 0 ≤ i < num_clients →
  let U := sorted_set dataset.*2 in
  let c := len U `div` num_clients in
  x ∈ label_group dataset num_clients i
  ↔ ∃ p : nat, U !! p = Some x ∧ i * c ≤ Z.of_nat p < (i + 1) * c.
Proof.
  intros Hn Hi U c. unfold label_group. fold U. fold c.
  assert (HL : 0 ≤ len U) by apply len_nonneg.
  assert (Hc : 0 ≤ c) by (apply Z.div_pos; lia).
  assert (Hnc : num_clients * c ≤ len U) by (apply Z.mul_div_le; lia).
  rewrite py_slice_take_drop by nia.
  rewrite elem_of_take. split.
  - intros (q & Hq & Hlt). rewrite lookup_drop in Hq.
    exists (Z.to_nat (i * c) + q)%nat. split; [done|]. nia.
  - intros (p & Hp & Hlt). exists (p - Z.to_nat (i * c))%nat.
    rewrite lookup_drop. split; [|nia].
    rewrite <- Hp. f_equal. nia.
Qed.

Lemma label_group_disjoint {X} (dataset : list (X * Z)) num_clients i j x :
  1 ≤ num_clients → 0 ≤ i < num_clients → 0 ≤ j < num_clients →
  x ∈ label_group dataset num_clients i → x ∈ label_group dataset num_clients j →
  i = j.
Proof.
  intros Hn Hi Hj Hxi Hxj.
  apply elem_of_label_group in Hxi as (p & Hp & Hpi); [|done..].
  apply elem_of_label_group in Hxj as (q & Hq & Hqj); [|done..].
  assert (p = q) as -> by (eapply NoDup_lookup; [apply NoDup_sorted_set|done..]).
  nia.
Qed.

Lemma label_groups_cover {X} (dataset : list (X * Z)) num_clients x :
  1 ≤ num_clients →
  let U := sorted_set dataset.*2 in
  let c := len U `div` num_clients in
  x ∈ take (Z.to_nat (num_clients * c)) U
  ↔ ∃ i, 0 ≤ i < num_clients ∧ x ∈ label_group dataset num_clients i.
Proof.
  intros Hn U c.
  assert (Hc : 0 ≤ c) by (apply Z.div_pos; [apply len_nonneg|lia]).
  rewrite elem_of_take. split.
  - intros (p & Hp & Hlt).
    assert (Hc' : 0 < c) by nia.
    exists (Z.of_nat p `div` c). 
    assert (Hdiv : (Z.of_nat p `div` c) * c ≤ Z.of_nat p < (Z.of_nat p `div` c + 1) * c).
    { pose proof (Z.mul_div_le (Z.of_nat p) c Hc').
      pose proof (Z.mul_succ_div_gt (Z.of_nat p) c Hc'). lia. }
    assert (Hrange : 0 ≤ Z.of_nat p `div` c < num_clients).
    { split; [apply Z.div_pos; lia|]. apply Z.div_lt_upper_bound; lia. }
    split; [done|]. apply elem_of_label_group; [done..|]. by exists p.
  - intros (i & Hi & Hx). apply elem_of_label_group in Hx as (p & Hp & Hlt); [|done..].
    exists p. split; [done|]. fold U c in Hlt. nia.
Qed.

Lemma NoDup_concat_disjoint {A} (ls : list (list A)) :
  (∀ i l, ls !! i = Some l → NoDup l) →
  (∀ i j li lj x, ls !! i = Some li → ls !! j = Some lj → x ∈ li → x ∈ lj → i = j) →
  NoDup (concat ls).
Proof.
  induction ls as [|l ls IH]; intros Hnd Hdisj; [constructor|].
  simpl. apply NoDup_app. split_and!.
  - by apply (Hnd 0%nat).
  - intros x Hx Hin. apply list_elem_of_In, in_concat in Hin as (lj & Hlj & Hxj).
    apply list_elem_of_In, list_elem_of_lookup in Hlj as [j Hj].
    apply list_elem_of_In in Hxj.
    by specialize (Hdisj 0%nat (S j) l lj x eq_refl Hj Hx Hxj).
  - apply IH.
    + intros i li Hi. by apply (Hnd (S i)).
    + intros i j li lj x Hi Hj Hxi Hxj.
      by specialize (Hdisj (S i) (S j) li lj x Hi Hj Hxi Hxj) as [= ->].
Qed.

Lemma non_iid_shards_elem {X} (dataset : list (X * Z)) num_clients (i : nat) s idx :
  non_iid_shards dataset num_clients !! i = Some s →
  idx ∈ subset_indices s
  ↔ ∃ e, 0 ≤ idx ∧ dataset !! Z.to_nat idx = Some e
         ∧ e.2 ∈ label_group dataset num_clients (Z.of_nat i).
Proof.
  intros Hi. apply non_iid_shards_lookup in Hi as (_ & _ & ->).
  apply elem_of_shard_indices.
Qed.

Lemma non_iid_shards_NoDup {X} (dataset : list (X * Z)) num_clients :
  NoDup (concat (subset_indices <$> non_iid_shards dataset num_clients)).
Proof.
  apply NoDup_concat_disjoint.
  - intros i l Hi. rewrite list_lookup_fmap in Hi.
    apply fmap_Some in Hi as (s & Hs & ->).
    apply non_iid_shards_lookup in Hs as (_ & _ & ->). apply NoDup_shard_indices.
  - intros i j li lj idx Hi Hj Hxi Hxj.
    rewrite list_lookup_fmap in Hi, Hj.
    apply fmap_Some in Hi as (si & Hsi & ->). apply fmap_Some in Hj as (sj & Hsj & ->).
    pose proof (non_iid_shards_lookup _ _ _ _ Hsi) as (Hilt & _).
    pose proof (non_iid_shards_lookup _ _ _ _ Hsj) as (Hjlt & _).
    apply (non_iid_shards_elem _ _ _ _ _ Hsi) in Hxi as (e & _ & He & Hgi).
    apply (non_iid_shards_elem _ _ _ _ _ Hsj) in Hxj as (e' & _ & He' & Hgj).
    assert (e' = e) as -> by congruence.
    assert (Z.of_nat i = Z.of_nat j); [|lia].
    eapply label_group_disjoint; [| | |exact Hgi|exact Hgj]; lia.
Qed.



(** X12.  In a non-IID split the examples of one label stay together: a shard
    that holds an example holds every example of the dataset with the same
    label. *)
Theorem split_data_non_iid_label_skew (R : PyRandom) {X : Type} (dataset : list (X * Z))
    (num_clients : Z) (g g' : rng R) (shards : list (Subset X))
    (s : Subset X) (idx1 idx2 : nat) (e1 e2 : X * Z) :
  split_data dataset num_clients "non_iid" g = (inr shards, g') →
  s ∈ shards →
  dataset !! idx1 = Some e1 → dataset !! idx2 = Some e2 → e1.2 = e2.2 →
  Z.of_nat idx1 ∈ subset_indices s → Z.of_nat idx2 ∈ subset_indices s.
Proof.
  intros Hrun Hs He1 He2 Hlab Hin. apply split_data_non_iid_inv in Hrun as ->.
  apply list_elem_of_lookup in Hs as [i Hi].
  apply (non_iid_shards_elem _ _ _ _ _ Hi) in Hin as (e & _ & He & Hg).
  rewrite Nat2Z.id in He. assert (e = e1) as -> by congruence.
  apply (non_iid_shards_elem _ _ _ _ _ Hi). exists e2.
  rewrite Nat2Z.id. split_and!; [lia | done | by rewrite <- Hlab].
Qed.

Lemma split_data_non_iid_label_skew_witness :
  Z.of_nat 3 ∈ subset_indices
                 {| subset_dataset := three_labels; subset_indices := [0; 3] |}.
Proof.
  apply (split_data_non_iid_label_skew lcg_random three_labels 2 42 42
           three_labels_shards _ 0 3 (tt, 0) (tt, 0)).
  - vm_compute. reflexivity.
  - constructor.
  - reflexivity.
  - reflexivity.
  - reflexivity.
  - constructor.
Defined.

Lemma non_iid_shards_assigned {X} (dataset : list (X * Z)) num_clients (idx : nat) e :
  1 ≤ num_clients →
  dataset !! idx = Some e →
  (∃ s, s ∈ non_iid_shards dataset num_clients ∧ Z.of_nat idx ∈ subset_indices s)
  ↔ e.2 ∈ take (Z.to_nat (num_clients * (num_labels dataset `div` num_clients)))
             (sorted_set dataset.*2).
Proof.
  intros Hn He. unfold num_labels. rewrite <- len_sorted_set.
  rewrite (label_groups_cover dataset num_clients (e.2) Hn). split.
  - intros (s & Hs & Hin). apply list_elem_of_lookup in Hs as [i Hi].
    pose proof (non_iid_shards_lookup _ _ _ _ Hi) as (Hlt & _).
    apply (non_iid_shards_elem _ _ _ _ _ Hi) in Hin as (e' & _ & He' & Hg).
    rewrite Nat2Z.id in He'. assert (e' = e) as -> by congruence.
    exists (Z.of_nat i). split; [lia | done].
  - intros (i & Hi & Hg).
    assert (Hsi : is_Some (non_iid_shards dataset num_clients !! Z.to_nat i)).
    { apply lookup_lt_is_Some. unfold non_iid_shards.
      rewrite length_fmap, length_range. lia. }
    destruct Hsi as [s Hs]. exists s. split; [by eapply list_elem_of_lookup_2|].
    apply (non_iid_shards_elem _ _ _ _ _ Hs). exists e.
    rewrite Nat2Z.id, Z2Nat.id by lia. split_and!; [lia | done | done].
Qed.





(** ** aggregate_models: weights *)

Lemma foldl_Qcplus_acc (a : Qc) (xs : list Qc) :
  foldl Qcplus a xs = (a + foldl Qcplus 0 xs)%Qc.
Proof.
  revert a. induction xs as [|x xs IH]; intros a; simpl.
  - by rewrite Qcplus_0_r.
  - rewrite (IH (a + x)%Qc), (IH (0 + x)%Qc). ring.
Qed.

Lemma py_sum_cons (x : Qc) (xs : list Qc) : py_sum (x :: xs) = (x + py_sum xs)%Qc.
Proof. unfold py_sum. simpl. rewrite foldl_Qcplus_acc. ring. Qed.

Lemma weighted_sum_cons key (d : dict) ds w ws :
  weighted_sum key (d :: ds) (w :: ws)
  = (default 0 (d !! key) * w + weighted_sum key ds ws)%Qc.
Proof. unfold weighted_sum. simpl. apply py_sum_cons. Qed.

Lemma weighted_sum_take key (ds : list dict) ws :
  weighted_sum key ds ws = weighted_sum key (take (length ws) ds) ws.
Proof.
  revert ws. induction ds as [|d ds IH]; intros [|w ws]; try done.
  simpl. by rewrite !weighted_sum_cons, <- IH.
Qed.

(** X15.  [aggregate_models] does not compare the lengths of
    [client_updates] and [client_weights]: [zip] stops at the shorter, so
    with fewer weights than updates (and at least one weight, so that the
    sums are tensors) the call returns, and the updates beyond the weights do
    not count. *)
Theorem aggregate_models_zip_truncates (st : State TorchModule) (us : list loc)
    (ds : list dict) (ws : list Qc) :
  us ≠ [] →
  ws ≠ [] →
  Forall2 (λ l d, objects st !! l = Some d) us ds →
  Forall (λ d : dict, dom d = dom (parameters (global_model (self st)))) ds →
  ∃ st',
    aggregate_models us (Some ws) st = (inr (global_model (self st')), st')
    ∧ ∀ k, k ∈ dom (parameters (global_model (self st))) →
        parameters (global_model (self st')) !! k
        = Some (weighted_sum k (take (length ws) ds) ws).
Proof.
  intros Hne _ Hus Hdom.
  destruct (aggregate_models_torch_entries st us ds ws Hne Hus Hdom) as (st' & Hrun & Hw).
  exists st'. split; [done|]. intros k Hk.
  rewrite Hw, decide_True by done. by rewrite <- weighted_sum_take.
Qed.

Lemma aggregate_models_zip_truncates_witness :
  ∃ st',
    aggregate_models [0%nat; 1%nat] (Some [1%Qc]) two_updates
    = (inr (global_model (self st')), st')
    ∧ ∀ k, k ∈ dom (parameters (global_model (self two_updates))) →
        parameters (global_model (self st')) !! k
        = Some (weighted_sum k
                  (take (length [1%Qc]) [ {[ "w" := Qc_of_Z 2 ]}; {[ "w" := Qc_of_Z 4 ]} ])
                  [1%Qc]).
Proof.
  apply (aggregate_models_zip_truncates two_updates [0%nat; 1%nat]).
  - discriminate.
  - discriminate.
  - exact two_updates_allocated.
  - exact two_updates_keys.
Defined.

Lemma weighted_sum_bounds key (ds : list dict) (ws : list Qc) (lo hi : Qc) :
  length ws = length ds →
  Forall (λ w, 0 ≤ w)%Qc ws →
  Forall (λ d : dict, ∃ v, d !! key = Some v ∧ lo ≤ v ≤ hi)%Qc ds →
  (lo * py_sum ws ≤ weighted_sum key ds ws ≤ hi * py_sum ws)%Qc.
Proof.
  intros Hlen Hws Hds. revert ws Hlen Hws.
  induction Hds as [|d ds (v & Hv & Hlo & Hhi) _ IH]; intros [|w ws] Hlen Hws;
    try done.
  - unfold weighted_sum, py_sum. simpl. by rewrite !Qcmult_0_r.
  - apply Forall_cons in Hws as [Hw Hws]. simpl in Hlen.
    destruct (IH ws) as [IHlo IHhi]; [lia | done |].
    rewrite weighted_sum_cons, py_sum_cons, Hv. simpl.
    rewrite !Qcmult_plus_distr_r. split.
    + apply Qcplus_le_compat; [|done]. by apply Qcmult_le_mono_nonneg_r.
    + apply Qcplus_le_compat; [|done]. by apply Qcmult_le_mono_nonneg_r.
Qed.

(** X16.  With one non-negative weight per update and weights that sum to 1,
    the parameter [aggregate_models] stores at a key lies between the
    smallest and the largest entry of the updates at that key. *)
Theorem aggregate_models_convex (st : State TorchModule) (us : list loc)
    (ds : list dict) (ws : list Qc) (key : string) (lo hi : Qc) :
  us ≠ [] →
  Forall2 (λ l d, objects st !! l = Some d) us ds →
  Forall (λ d : dict, dom d = dom (parameters (global_model (self st)))) ds →
  length ws = length us →
  Forall (λ w, 0 ≤ w)%Qc ws →
  py_sum ws = 1%Qc →
  Forall (λ d : dict, ∃ v, d !! key = Some v ∧ lo ≤ v ≤ hi)%Qc ds →
  ∃ st' v,
    aggregate_models us (Some ws) st = (inr (global_model (self st')), st')
    ∧ parameters (global_model (self st')) !! key = Some v
    ∧ (lo ≤ v ≤ hi)%Qc.
Proof.
  intros Hne Hus Hdom Hlen Hws Hsum Hvals.
  destruct (aggregate_models_torch_entries st us ds ws Hne Hus Hdom) as (st' & Hrun & Hw).
  exists st', (weighted_sum key ds ws). split; [done|].
  assert (Hk : key ∈ dom (parameters (global_model (self st)))).
  { destruct Hus as [|l d us ds _ _]; [done|].
    rewrite <- (Forall_inv Hdom).
    destruct (Forall_inv Hvals) as (v & Hv & _). apply elem_of_dom. by exists v. }
  split; [by rewrite Hw, decide_True|].
  pose proof (weighted_sum_bounds key ds ws lo hi) as Hb.
  rewrite Hsum, !Qcmult_1_r in Hb. apply Hb; [|done..].
  by rewrite Hlen, (Forall2_length _ _ _ Hus).
Qed.

Lemma aggregate_models_convex_witness :
  ∃ st' v,
    aggregate_models [0%nat; 1%nat] (Some [Q2Qc (1 # 2); Q2Qc (1 # 2)]) two_updates
    = (inr (global_model (self st')), st')
    ∧ parameters (global_model (self st')) !! "w" = Some v
    ∧ (Qc_of_Z 2 ≤ v ≤ Qc_of_Z 4)%Qc.
Proof.
  apply (aggregate_models_convex two_updates [0%nat; 1%nat]
           [ {[ "w" := Qc_of_Z 2 ]}; {[ "w" := Qc_of_Z 4 ]} ]).
  - discriminate.
  - exact two_updates_allocated.
  - exact two_updates_keys.
  - reflexivity.
  - repeat constructor; discriminate.
  - apply Qc_is_canon. reflexivity.
  - repeat constructor.
    + exists (Qc_of_Z 2). split; [reflexivity|]. split; discriminate.
    + exists (Qc_of_Z 4). split; [reflexivity|]. split; discriminate.
Defined.

(** X17.  With the weight 1.0 for every update, which is what [main] passes,
    [aggregate_models] stores at every key the sum of the entries of the
    updates: [n] times their mean, for [n] updates. *)
Theorem aggregate_models_unit_weights (st : State TorchModule) (us : list loc)
    (ds : list dict) :
  us ≠ [] →
  Forall2 (λ l d, objects st !! l = Some d) us ds →
  Forall (λ d : dict, dom d = dom (parameters (global_model (self st)))) ds →
  ∃ st',
    aggregate_models us (Some (replicate (length us) 1%Qc)) st
    = (inr (global_model (self st')), st')
    ∧ ∀ k vs, Forall2 (λ d v, d !! k = Some v) ds vs →
        parameters (global_model (self st')) !! k
        = Some (Qc_of_Z (len us) * (py_sum vs / Qc_of_Z (len us)))%Qc.
Proof.
  intros Hne Hus Hdom.
  destruct (aggregate_models_torch_entries st us ds (replicate (length us) 1%Qc)
              Hne Hus Hdom) as (st' & Hrun & Hw).
  exists st'. split; [done|]. intros k vs Hvs.
  assert (Hk : k ∈ dom (parameters (global_model (self st)))).
  { destruct Hus as [|l d us ds _ _]; [done|].
    rewrite <- (Forall_inv Hdom).
    apply Forall2_cons_inv_l in Hvs as (v & vs' & Hv & _ & _).
    apply elem_of_dom. by exists v. }
  rewrite Hw, decide_True, (Forall2_length _ _ _ Hus) by done.
  rewrite (weighted_sum_uniform k ds vs 1 Hvs). f_equal.
  assert (Hn : Qc_of_Z (len us) ≠ 0%Qc).
  { rewrite <- Z2Qc_inj_0. intros Heq%Z2Qc_inj.
    destruct us; [done|]. unfold len in Heq. simpl in Heq. lia. }
  field. done.
Qed.

Lemma aggregate_models_unit_weights_witness :
  ∃ st',
    aggregate_models [0%nat; 1%nat] (Some (replicate (length [0%nat; 1%nat]) 1%Qc))
      two_updates
    = (inr (global_model (self st')), st')
    ∧ ∀ k vs,
        Forall2 (λ (d : dict) v, d !! k = Some v)
          [ {[ "w" := Qc_of_Z 2 ]}; {[ "w" := Qc_of_Z 4 ]} ] vs →
        parameters (global_model (self st')) !! k
        = Some (Qc_of_Z (len [0%nat; 1%nat]) * (py_sum vs / Qc_of_Z (len [0%nat; 1%nat])))%Qc.
Proof.
  apply (aggregate_models_unit_weights two_updates [0%nat; 1%nat]).
  - discriminate.
  - exact two_updates_allocated.
  - exact two_updates_keys.
Defined.

(** ** aggregate_models: exceptions *)

Section AggregationErrors.
Context {Mod : Type} `{!NNModule Mod}.
Implicit Types (s st : State Mod).

Lemma weighted_terms_zip_run s key us (ds : list dict) ws :
  Forall2 (λ l d, objects s !! l = Some d) us ds →
  Forall (λ dw : dict * Qc, is_Some (dw.1 !! key)) (zip ds ws) →
  weighted_terms key us ws s
  = (inr (zip_with (λ (d : dict) w, (default 0 (d !! key) * w)%Qc) ds ws), s).
Proof.
  intros Hus Hkey. unfold weighted_terms. apply mapM_run.
  revert ws Hkey. induction Hus as [|l d us ds Hl _ IH]; intros ws Hkey; [constructor|].
  destruct ws as [|w ws]; [constructor|]. simpl in *.
  apply Forall_cons in Hkey as [[v Hv] Hkey]. simpl in Hv. constructor.
  - unfold dict_getitem, deref. simpl. rewrite !run_bind, Hl, Hv. simpl. done.
  - by apply IH.
Qed.

Lemma weighted_terms_missing s key us (ds : list dict) ws :
  Forall2 (λ l d, objects s !! l = Some d) us ds →
  Exists (λ dw : dict * Qc, dw.1 !! key = None) (zip ds ws) →
  weighted_terms key us ws s = (inl (KeyError key), s).
Proof.
  intros Hus. unfold weighted_terms. revert ws.
  induction Hus as [|l d us ds Hl _ IH]; intros ws Hex.
  { destruct ws; by apply Exists_nil in Hex. }
  destruct ws as [|w ws]; [by apply Exists_nil in Hex|].
  simpl in Hex |- *. rewrite run_bind.
  unfold dict_getitem at 1, deref at 1. rewrite !run_bind, Hl. simpl.
  destruct (d !! key) as [v|] eqn:Hv; simpl; [|done].
  apply Exists_cons in Hex as [Hhd|Htl]; [simpl in Hhd; congruence|].
  rewrite run_bind, (IH ws Htl). done.
Qed.

Lemma aggregate_loop_missing keys : ∀ s (g : loc) us (ds : list dict) ws (d : dict),
  objects s !! g = Some d →
  g ∉ us →
  Forall2 (λ l d, objects s !! l = Some d) us ds →
  Exists (λ k, Exists (λ dw : dict * Qc, dw.1 !! k = None) (zip ds ws)) keys →
  ∃ k s',
    for_each keys (λ key,
      terms ← weighted_terms key us ws;
      dict_setitem g key (py_sum terms)) s
    = (inl (KeyError k), s')
    ∧ k ∈ keys
    ∧ Exists (λ dw : dict * Qc, dw.1 !! k = None) (zip ds ws)
    ∧ self s' = self s.
Proof.
  induction keys as [|key keys IH]; intros s g us ds ws d Hg Hgus Hus Hex.
  { by apply Exists_nil in Hex. }
  cbn [for_each]. rewrite run_bind, run_bind.
  destruct (decide (Forall (λ dw : dict * Qc, is_Some (dw.1 !! key)) (zip ds ws)))
    as [Hall|Hnot].
  - rewrite (weighted_terms_zip_run s key us ds ws Hus Hall).
    rewrite (dict_setitem_run s g key _ d Hg).
    apply Exists_cons in Hex as [Hhd|Htl].
    { exfalso. apply Exists_exists in Hhd as (dw & Hin & Hnone).
      rewrite Forall_forall in Hall. destruct (Hall dw Hin) as [v Hv]. congruence. }
    set (d1 := <[key := py_sum (zip_with (λ (d : dict) w, (default 0 (d !! key) * w)%Qc)
                                 ds ws)]> d).
    set (s1 := {| objects := <[g := d1]> (objects s); self := self s |}).
    destruct (IH s1 g us ds ws d1) as (k & s' & Hrun & Hk & Hlack & Hself).
    + apply lookup_insert_eq.
    + done.
    + apply Forall2_same_length_lookup_2; [by eapply Forall2_length|].
      intros i l d' Hl Hd'. simpl. rewrite lookup_insert_ne.
      * exact (Forall2_lookup_lr _ _ _ _ _ _ Hus Hl Hd').
      * intros <-. apply Hgus. by eapply list_elem_of_lookup_2.
    + exact Htl.
    + exists k, s'. split_and!; [exact Hrun | by right | done | done].
  - apply not_Forall_Exists in Hnot; [|apply _].
    assert (Hlack : Exists (λ dw : dict * Qc, dw.1 !! key = None) (zip ds ws)).
    { eapply Exists_impl; [exact Hnot|]. intros dw Hn. simpl in Hn.
      destruct (dw.1 !! key) eqn:E; [|done]. exfalso. apply Hn. by eexists. }
    rewrite (weighted_terms_missing s key us ds ws Hus Hlack).
    exists key, s. split_and!; [done | by left | done | done].
Qed.

Lemma aggregate_models_missing_key_run st l0 us (d0 : dict) ds ws :
  Forall2 (λ l d, objects st !! l = Some d) (l0 :: us) (d0 :: ds) →
  Exists (λ k, Exists (λ dw : dict * Qc, dw.1 !! k = None) (zip (d0 :: ds) ws))
    (map_to_list d0).*1 →
  ∃ k st',
    aggregate_models (l0 :: us) (Some ws) st = (inl (KeyError k), st')
    ∧ k ∈ dom d0
    ∧ Exists (λ dw : dict * Qc, dw.1 !! k = None) (zip (d0 :: ds) ws)
    ∧ self st' = self st.
Proof.
  intros Hus Hex.
  pose proof (Forall2_cons_1 _ _ _ _ _ Hus) as [Hl0 _].
  set (g := fresh (dom (objects st))).
  assert (Hg : objects st !! g = None) by apply not_elem_of_dom, is_fresh.
  set (s1 := {| objects := <[g := d0]> (objects st); self := self st |}).
  edestruct (aggregate_loop_missing (map_to_list d0).*1 s1 g (l0 :: us) (d0 :: ds) ws d0)
    as (k & s' & Hrun & Hk & Hlack & Hself).
  - apply lookup_insert_eq.
  - intros Hin. apply list_elem_of_lookup in Hin as [i Hi].
    destruct (Forall2_lookup_l _ _ _ _ _ Hus Hi) as (d & _ & Hd). congruence.
  - apply Forall2_same_length_lookup_2; [by eapply Forall2_length|].
    intros i l d Hl Hd. simpl. rewrite lookup_insert_ne.
    + exact (Forall2_lookup_lr _ _ _ _ _ _ Hus Hl Hd).
    + intros <-. pose proof (Forall2_lookup_lr _ _ _ _ _ _ Hus Hl Hd). congruence.
  - exact Hex.
  - exists k, s'. split_and!; [|by apply elem_of_dict_keys|done|done].
    unfold aggregate_models.
    erewrite run_bind_inr; [|reflexivity].
    erewrite run_bind_inr; [|reflexivity].
    erewrite (run_bind_inr (deepcopy l0));
      [|unfold deepcopy, deref; rewrite run_bind, Hl0; reflexivity].
    fold g. fold s1.
    erewrite (run_bind_inr (dict_keys g));
      [|unfold dict_keys, deref; rewrite run_bind; simpl; rewrite lookup_insert_eq; reflexivity].
    by erewrite run_bind_inl.
Qed.

(** X18.  With an empty list of updates [aggregate_models] raises
    [IndexError] at [client_updates[0]], whatever the weights: with the
    default weights too, where [1.0 / len(client_updates)] is never
    evaluated, the comprehension ranging over no element.  Nothing has been
    allocated or written by then. *)
Theorem aggregate_models_no_updates (st : State Mod) (ws : option (list Qc)) :
  aggregate_models [] ws st = (inl IndexError, st).
Proof. destruct ws as [ws|]; reflexivity. Qed.

(** X19.  When an update that [zip] pairs with a weight lacks a key of the
    first update, [aggregate_models] raises [KeyError] for a key of the first
    update that some paired update lacks; the global model is as it was
    ([load_state_dict] is not reached) and every dict of the heap holds
    what it held. *)
Theorem aggregate_models_missing_key (st : State Mod) l0 us (d0 : dict)
    (ds : list dict) ws key (d : dict) w :
  Forall2 (λ l d, objects st !! l = Some d) (l0 :: us) (d0 :: ds) →
  key ∈ dom d0 → (d, w) ∈ zip (d0 :: ds) ws → d !! key = None →
  ∃ k st',
    aggregate_models (l0 :: us) (Some ws) st = (inl (KeyError k), st')
    ∧ k ∈ dom d0
    ∧ (∃ d' w', (d', w') ∈ zip (d0 :: ds) ws ∧ d' !! k = None)
    ∧ global_model (self st') = global_model (self st)
    ∧ objects st ⊆ objects st'.
Proof.
  intros Hus Hkey Hin Hnone.
  destruct (aggregate_models_missing_key_run st l0 us d0 ds ws Hus)
    as (k & st' & Hrun & Hk & Hlack & Hself).
  { apply Exists_exists. exists key. split; [by apply elem_of_dict_keys|].
    apply Exists_exists. by exists (d, w). }
  exists k, st'. split_and!; [done | done | | by rewrite Hself |].
  - apply Exists_exists in Hlack as ([d' w'] & Hin' & Hn). by exists d', w'.
  - destruct (aggregate_models_outcome st (l0 :: us) (Some ws) st) as [Hsub _];
      [by split|]. by rewrite Hrun in Hsub.
Qed.
End AggregationErrors.

Lemma aggregate_models_missing_key_witness :
  ∃ k st',
    aggregate_models [0%nat; 1%nat] (Some [1%Qc; 1%Qc]) ragged_updates
    = (inl (KeyError k), st')
    ∧ k ∈ dom ({[ "a" := 1%Qc; "b" := 1%Qc ]} : dict)
    ∧ (∃ (d' : dict) w',
         (d', w') ∈ zip [ ({[ "a" := 1%Qc; "b" := 1%Qc ]} : dict); {[ "a" := 1%Qc ]} ]
                        [1%Qc; 1%Qc]
         ∧ d' !! k = None)
    ∧ global_model (self st') = global_model (self ragged_updates)
    ∧ objects ragged_updates ⊆ objects st'.
Proof.
  apply (aggregate_models_missing_key ragged_updates 0%nat [1%nat]
           {[ "a" := 1%Qc; "b" := 1%Qc ]} [ {[ "a" := 1%Qc ]} ] [1%Qc; 1%Qc]
           "b" {[ "a" := 1%Qc ]} 1%Qc).
  - repeat constructor.
  - set_solver.
  - right. left.
  - reflexivity.
Defined.

(** X20.  On a torch module, when the updates agree on their keys, these are
    not the keys of the global model and there is at least one weight (so
    that the sums are tensors), [aggregate_models] raises [RuntimeError] from
    [load_state_dict], after the loader has copied the matching keys: a
    parameter of the global model holds the weighted sum when the updates
    have its key, and is as it was otherwise. *)
Theorem aggregate_models_key_mismatch (st : State TorchModule) l0 us (d0 : dict)
    (ds : list dict) (ws : list Qc) :
  Forall2 (λ l d, objects st !! l = Some d) (l0 :: us) (d0 :: ds) →
  Forall (λ d : dict, dom d = dom d0) ds →
  dom d0 ≠ dom (parameters (global_model (self st))) →
  ws ≠ [] →
  ∃ st',
    aggregate_models (l0 :: us) (Some ws) st = (inl RuntimeError, st')
    ∧ ∀ k, parameters (global_model (self st')) !! k
           = match parameters (global_model (self st)) !! k with
             | Some old =>
                 Some (if decide (k ∈ dom d0) then weighted_sum k (d0 :: ds) ws else old)
             | None => None
             end.
Proof.
  intros Hus Hdom Hne _.
  rewrite (aggregate_models_run st l0 us d0 ds ws Hus); last first.
  { intros d k Hd Hk. apply elem_of_dom.
    apply elem_of_cons in Hd as [->|Hd]; [done|].
    rewrite Forall_forall in Hdom. by rewrite (Hdom d Hd). }
  set (gd := weighted_sums d0 (d0 :: ds) ws (map_to_list d0).*1).
  rewrite run_bind. unfold self_load. simpl.
  rewrite decide_False by (unfold gd; by rewrite dom_weighted_sums).
  match goal with |- ∃ st', (_, ?s) = _ ∧ _ => exists s end.
  split; [done|]. intros k. simpl. unfold torch_load. rewrite map_lookup_imap.
  destruct (parameters (global_model (self st)) !! k) as [old|]; simpl; [|done].
  unfold gd. rewrite weighted_sums_all_keys. by case_decide.
Qed.

Lemma aggregate_models_key_mismatch_witness :
  ∃ st',
    aggregate_models [0%nat] (Some [1%Qc]) mismatched_update = (inl RuntimeError, st')
    ∧ ∀ k, parameters (global_model (self st')) !! k
           = match parameters (global_model (self mismatched_update)) !! k with
             | Some old =>
                 Some (if decide (k ∈ dom ({[ "a" := 1%Qc; "c" := 1%Qc ]} : dict))
                       then weighted_sum k [ {[ "a" := 1%Qc; "c" := 1%Qc ]} ] [1%Qc]
                       else old)
             | None => None
             end.
Proof.
  apply (aggregate_models_key_mismatch mismatched_update 0%nat []
           {[ "a" := 1%Qc; "c" := 1%Qc ]} [] [1%Qc]).
  - repeat constructor.
  - constructor.
  - intros Hdom. assert (Hc : "c" ∈ dom ({[ "a" := 1%Qc; "c" := 1%Qc ]} : dict)) by set_solver.
    rewrite Hdom in Hc. simpl in Hc. set_solver.
  - discriminate.
Defined.

(** ** main: a round *)

Section TrainOutcome.
Context {Net Batch : Type}.
Context (train_mode : Net → Net).
Context (train_step : Batch → Net → Qc * Net).
Context `{!NNModule Net}.
(** A property of the model that [model.train()] and a training step keep. *)
Context (Inv : Net → Prop).
Context (Hmode : ∀ net, Inv net → Inv (train_mode net)).
Context (Hstep : ∀ b net, Inv net → Inv (train_step b net).2).
Implicit Types c : Client Net Batch.

Lemma train_batches_outcome (bs : list Batch) :
  ∀ (acc : Qc) c,
  Inv (model c) →
  ∃ l c',
    train_batches train_step bs acc c = (inr l, c')
    ∧ client_id c' = client_id c ∧ data_loader c' = data_loader c ∧ Inv (model c').
Proof.
  induction bs as [|b bs IH]; intros acc c HI.
  - by exists acc, c.
  - cbn [train_batches]. rewrite run_bind. unfold train_batch at 1.
    pose proof (Hstep b _ HI) as HI'.
    destruct (train_step b (model c)) as [loss net]. simpl in HI'.
    destruct (IH (acc + loss)%Qc (set_model net c) HI') as (l & c' & Hrun & Hid & Hdl & HI'').
    by exists l, c'.
Qed.

Lemma train_epoch_outcome (total : Qc) c :
  Inv (model c) →
  ∃ r c',
    train_epoch train_step total c = (r, c')
    ∧ client_id c' = client_id c ∧ data_loader c' = data_loader c ∧ Inv (model c')
    ∧ match data_loader c with
      | [] => r = inl ZeroDivisionError
      | _ :: _ => ∃ t, r = inr t
      end.
Proof.
  intros HI. unfold train_epoch.
  rewrite (run_bind_inr get _ c c c eq_refl).
  destruct (train_batches_outcome (data_loader c) 0%Qc c HI)
    as (l & c' & Hrun & Hid & Hdl & HI').
  rewrite (run_bind_inr _ _ _ _ _ Hrun).
  destruct (data_loader c) as [|b bs] eqn:Hbs.
  - exists (inl ZeroDivisionError), c'. split_and!; done.
  - eexists _, c'. rewrite run_bind, py_truediv_nonzero, run_ret.
    + split_and!; [reflexivity | done | done | done | by eexists].
    + unfold len. simpl. lia.
Qed.

Lemma train_epochs_outcome (epochs : nat) :
  ∀ (total : Qc) c,
  Inv (model c) →
  ∃ r c',
    train_epochs train_step epochs total c = (r, c')
    ∧ client_id c' = client_id c ∧ data_loader c' = data_loader c ∧ Inv (model c')
    ∧ match data_loader c, epochs with
      | [], S _ => r = inl ZeroDivisionError
      | _, _ => ∃ t, r = inr t
      end.
Proof.
  induction epochs as [|n IH]; intros total c HI.
  - exists (inr total), c. split_and!; try done. destruct (data_loader c); by eexists.
  - cbn [train_epochs]. rewrite run_bind.
    destruct (train_epoch_outcome total c HI) as (r & c1 & -> & Hid & Hdl & HI1 & Hr).
    destruct (data_loader c) as [|b bs] eqn:Hbs.
    + subst r. by exists (inl ZeroDivisionError), c1.
    + destruct Hr as [t ->].
      destruct (IH t c1 HI1) as (r & c2 & -> & Hid2 & Hdl2 & HI2 & Hr).
      exists r, c2. rewrite Hdl in Hr. split_and!; [done | congruence | congruence | done |].
      destruct n; done.
Qed.

(** How a call of [Client.train] ends. *)
Lemma train_outcome (epochs : Z) c :
  Inv (model c) →
  ∃ r c',
    train train_mode train_step epochs c = (r, c')
    ∧ client_id c' = client_id c ∧ data_loader c' = data_loader c ∧ Inv (model c')
    ∧ ((r = inl ZeroDivisionError ∧ (epochs = 0 ∨ (1 ≤ epochs ∧ data_loader c = [])))
       ∨ (∃ loss, r = inr (state_dict (model c'), loss)
                  ∧ (epochs < 0 ∨ (1 ≤ epochs ∧ data_loader c ≠ [])))).
Proof.
  intros HI. unfold train.
  rewrite (run_bind_inr get _ c c c eq_refl).
  rewrite (run_bind_inr (put _) _ c tt (set_model (train_mode (model c)) c) eq_refl).
  destruct (train_epochs_outcome (Z.to_nat epochs) 0%Qc (set_model (train_mode (model c)) c))
    as (r & c' & Hrun & Hid & Hdl & HI' & Hr); [by apply Hmode|].
  rewrite run_bind, Hrun. simpl in Hid, Hdl, Hr.
  destruct r as [e|t].
  - exists (inl e), c'. split_and!; [done | done | done | done |].
    left. destruct (data_loader c) as [|b bs], (Z.to_nat epochs) as [|n] eqn:Hn;
      try (by destruct Hr).
    injection Hr as ->. split; [done|]. right. split; [lia | done].
  - destruct (decide (epochs = 0)) as [->|Hne].
    + exists (inl ZeroDivisionError), c'. rewrite run_bind, py_truediv_zero.
      split_and!; [done | done | done | done |]. left. split; [done|]. by left.
    + eexists _, c'. rewrite run_bind, py_truediv_nonzero by done.
      rewrite run_bind. simpl. split_and!; [reflexivity | done | done | done |].
      right. eexists. split; [done|].
      destruct (decide (epochs < 0)) as [|Hpos]; [by left|]. right. split; [lia|].
      intros Hnil. rewrite Hnil in Hr.
      destruct (Z.to_nat epochs) as [|n] eqn:Hn; [lia | done].
Qed.
End TrainOutcome.

Section RoundFacts.
Context {R : PyRandom}.
Context {Net Batch : Type}.
Context (train_mode : Net → Net).
Context (train_step : Batch → Net → Qc * Net).
Context `{!NNModule Net}.
Implicit Types f : Federation R Net Batch.
Implicit Types c : Client Net Batch.

Lemma in_client_run {A} (i : nat) (m : Py (Client Net Batch) A) f c r c' :
  clients f !! i = Some c → m c = (r, c') →
  in_client i m f
  = (r, {| generator := generator f; clients := <[i := c']> (clients f);
           server := server f |}).
Proof. intros Hi Hm. unfold in_client. by rewrite Hi, Hm. Qed.

(** [[clients[i] for i in selected_client_ids]] for ids of [range(len(clients))] *)
Lemma clients_getitem_run (ids : list Z) f :
  (∀ i, i ∈ ids → 0 ≤ i < len (clients f)) →
  mapM clients_getitem ids f = (inr (Z.to_nat <$> ids), f).
Proof.
  intros Hids. apply mapM_run. apply Forall2_fmap_r, Forall_Forall2_diag, Forall_forall.
  intros i Hi. unfold clients_getitem.
  rewrite (run_bind_inr get _ f f f eq_refl). by rewrite decide_True by auto.
Qed.

(** One turn of the loop over the selected clients. *)
Lemma train_selected_run (epochs : Z) (i : nat) f c r c' :
  clients f !! i = Some c →
  train train_mode train_step epochs c = (r, c') →
  train_selected train_mode train_step epochs i f
  = match r with
    | inl e =>
        (inl e, {| generator := generator f; clients := <[i := c']> (clients f);
                   server := server f |})
    | inr u =>
        (inr (fresh (dom (objects (server f))), 1%Qc),
         {| generator := generator f; clients := <[i := c']> (clients f);
            server := {| objects := <[fresh (dom (objects (server f))) := u.1]>
                                      (objects (server f));
                         self := self (server f) |} |})
    end.
Proof.
  intros Hi Hrun. unfold train_selected.
  rewrite run_bind, (in_client_run _ _ _ _ _ _ Hi Hrun).
  by destruct r as [e|u].
Qed.

Section Invariant.
Context (Inv : Net → Prop).
Context (Hmode : ∀ net, Inv net → Inv (train_mode net)).
Context (Hstep : ∀ b net, Inv net → Inv (train_step b net).2).

(** The loop over the selected clients, when every one of them trains to the
    end: the clients at the selected positions have trained, the others are
    as they were, and every update is a new dict that holds the state dict of
    the trained model. *)
Lemma train_selected_loop (epochs : Z) (poss : list nat) :
  1 ≤ epochs →
  NoDup poss →
  ∀ f (cs : list (Client Net Batch)),
  Forall2 (λ i c, clients f !! i = Some c ∧ Inv (model c) ∧ data_loader c ≠ []) poss cs →
  ∃ updates f',
    mapM (train_selected train_mode train_step epochs) poss f = (inr updates, f')
    ∧ generator f' = generator f
    ∧ self (server f') = self (server f)
    ∧ objects (server f) ⊆ objects (server f')
    ∧ length (clients f') = length (clients f)
    ∧ updates.*2 = replicate (length poss) 1%Qc
    ∧ Forall2 (λ l c, objects (server f') !! l
                      = Some (state_dict (model (train train_mode train_step epochs c).2))
                      ∧ Inv (model (train train_mode train_step epochs c).2))
        updates.*1 cs
    ∧ ∀ j, clients f' !! j
           = (if decide (j ∈ poss)
              then λ c, (train train_mode train_step epochs c).2 else id)
             <$> clients f !! j.
Proof.
  intros Hep Hnd. induction poss as [|i poss IH]; intros f cs Hcs.
  - apply Forall2_nil_inv_l in Hcs as ->. exists [], f.
    split_and!; try done. intros j. by destruct (clients f !! j).
  - apply Forall2_cons_inv_l in Hcs as (c & cs' & (Hi & HI & Hdl) & Hcs & ->).
    apply NoDup_cons in Hnd as [Hnotin Hnd].
    destruct (train_outcome train_mode train_step Inv Hmode Hstep epochs c HI)
      as (r & c' & Hrun & Hid & Hdl' & HI' & [[_ [?|[_ ?]]] | [loss [-> _]]]);
      [lia | done |].
    set (l := fresh (dom (objects (server f)))).
    set (f1 := {| generator := generator f; clients := <[i := c']> (clients f);
                  server := {| objects := <[l := state_dict (model c')]> (objects (server f));
                               self := self (server f) |} |}).
    assert (Hl : objects (server f) !! l = None) by apply not_elem_of_dom, is_fresh.
    destruct (IH Hnd f1 cs') as (ups & f' & Hloop & Hg & Hself & Hsub & Hn & Hws & Hups & Hcl).
    { apply Forall2_same_length_lookup. split; [by eapply Forall2_length|].
      intros n j cj Hj Hcj.
      destruct (Forall2_lookup_lr _ _ _ _ _ _ Hcs Hj Hcj) as (Hlk & HIj & Hdlj).
      split_and!; [|done|done]. simpl. rewrite list_lookup_insert_ne; [done|].
      intros <-. apply Hnotin. by eapply list_elem_of_lookup_2. }
    assert (Hc' : (train train_mode train_step epochs c).2 = c') by by rewrite Hrun.
    exists ((l, 1%Qc) :: ups), f'. split_and!.
    + cbn [mapM]. rewrite run_bind, (train_selected_run _ _ _ _ _ _ Hi Hrun).
      simpl. fold l f1. by rewrite run_bind, Hloop.
    + done.
    + done.
    + etrans; [|exact Hsub]. by apply insert_subseteq.
    + by rewrite Hn; simpl; rewrite length_insert.
    + simpl. by f_equal.
    + simpl. constructor; [|done]. rewrite Hc'. split; [|done].
      eapply lookup_weaken; [|exact Hsub]. apply lookup_insert_eq.
    + intros j. rewrite Hcl. simpl.
      destruct (decide (j = i)) as [->|Hji].
      * rewrite decide_False by done. rewrite decide_True by left.
        rewrite list_lookup_insert_eq by (by eapply lookup_lt_Some).
        by rewrite Hi, <- Hc'.
      * rewrite list_lookup_insert_ne by done.
        destruct (decide (j ∈ poss)) as [Hin|Hin].
        -- by rewrite decide_True by (by right).
        -- rewrite decide_False; [done|]. by intros [?|?]%elem_of_cons.
Qed.
End Invariant.
End RoundFacts.

Lemma Forall2_choice {A B} (P : A → B → Prop) (l : list A) :
  (∀ x, x ∈ l → ∃ y, P x y) → ∃ k, Forall2 P l k.
Proof.
  induction l as [|x l IH]; intros Hl; [by exists []|].
  destruct (Hl x) as [y Hy]; [by left|].
  destruct IH as [k Hk]; [intros x' Hx'; apply Hl; by right|].
  exists (y :: k). by constructor.
Qed.

Section RoundRaises.
Context {R : PyRandom}.
Context {Net Batch : Type}.
Context (train_mode : Net → Net).
Context (train_step : Batch → Net → Qc * Net).
Context `{!NNModule Net}.
Implicit Types f : Federation R Net Batch.

(** The loop over the selected clients stops at the first client that has no
    batch. *)
Lemma train_selected_loop_raises (epochs : Z) (poss : list nat) :
  0 ≤ epochs →
  ∀ f,
  (∀ j, j ∈ poss → is_Some (clients f !! j)) →
  (∃ j c, j ∈ poss ∧ clients f !! j = Some c ∧ data_loader c = []) →
  ∃ f',
    mapM (train_selected train_mode train_step epochs) poss f
    = (inl ZeroDivisionError, f')
    ∧ generator f' = generator f
    ∧ self (server f') = self (server f).
Proof.
  intros Hep. induction poss as [|i poss IH]; intros f Hvalid (j & c & Hj & Hc & Hdl).
  - by apply elem_of_nil in Hj.
  - destruct (Hvalid i) as [c0 Hi]; [by left|].
    destruct (train_outcome train_mode train_step (λ _, True) (λ _ _, I) (λ _ _ _, I)
                epochs c0 I)
      as (r & c' & Hrun & _ & _ & _ & [[-> _] | [loss [-> Hcase]]]).
    + eexists. cbn [mapM].
      rewrite run_bind, (train_selected_run _ _ _ _ _ _ _ _ Hi Hrun). done.
    + destruct Hcase as [?|[_ Hne]]; [lia|].
      assert (Hji : j ≠ i) by (intros ->; congruence).
      set (f1 := {| generator := generator f; clients := <[i := c']> (clients f);
                    server := {| objects := <[fresh (dom (objects (server f)))
                                              := state_dict (model c')]>
                                              (objects (server f));
                                 self := self (server f) |} |}).
      destruct (IH f1) as (f' & Hloop & Hg & Hself).
      { intros j' Hj'. apply lookup_lt_is_Some. simpl. rewrite length_insert.
        apply lookup_lt_is_Some, Hvalid. by right. }
      { exists j, c. split_and!; [|by simpl; rewrite list_lookup_insert_ne|done].
        by apply elem_of_cons in Hj as [?|?]. }
      exists f'. cbn [mapM].
      rewrite run_bind, (train_selected_run _ _ _ _ _ _ _ _ Hi Hrun).
      simpl. fold f1. by rewrite run_bind, Hloop.
Qed.
End RoundRaises.

Section RoundRun.
Context {R : PyRandom}.
Context {Net Batch : Type}.
Context (train_mode : Net → Net).
Context (train_step : Batch → Net → Qc * Net).
Context `{!NNModule Net}.
Implicit Types f : Federation R Net Batch.

Lemma select_clients_inv {Mod} (srv : FederatedServer Mod) (g g' : rng R) ids :
  select_clients srv g = (inr ids, g') →
  ids ≠ [] ∧ NoDup ids ∧ ∀ i, i ∈ ids → 0 ≤ i < num_clients srv.
Proof.
  intros Hrun.
  pose proof (num_selected_bounds srv g ids g' Hrun) as Hk. simpl in Hk.
  destruct (select_clients_run R srv g) as (ids' & g'' & Hrun' & Hlen & Hnd & Hin);
    [lia|].
  rewrite Hrun in Hrun'. injection Hrun' as <- <-.
  split_and!; [|done|done].
  intros ->. unfold len in Hlen. simpl in Hlen. lia.
Qed.

(** The round from the selection on. *)
Lemma main_round_run (epochs : Z) f ids g' :
  len (clients f) = num_clients (self (server f)) →
  select_clients (self (server f)) (generator f) = (inr ids, g') →
  main_round train_mode train_step epochs f
  = (updates ← mapM (train_selected train_mode train_step epochs) (Z.to_nat <$> ids);
     in_server (aggregate_models updates.*1 (Some updates.*2)) ;;
     f ← get;
     for_each (seq 0 (length (clients f))) distribute)
      {| generator := g'; clients := clients f; server := server f |}.
Proof.
  intros Hlen Hsel. destruct (select_clients_inv _ _ _ _ Hsel) as (_ & _ & Hin).
  unfold main_round.
  rewrite (run_bind_inr get _ f f f eq_refl).
  erewrite (run_bind_inr (in_random _)); [|unfold in_random; rewrite Hsel; reflexivity].
  erewrite (run_bind_inr (mapM clients_getitem ids)); [reflexivity|].
  apply clients_getitem_run. simpl. intros i Hi. rewrite Hlen. by apply Hin.
Qed.
End RoundRun.



Section RoundTorch.
Context {R : PyRandom}.
Context {Batch : Type}.
Implicit Types f : Federation R TorchModule Batch.

(** [load_state_dict] on a module with the keys of the dict. *)
Lemma model_load_run (d : dict) (c : Client TorchModule Batch) :
  dom (parameters (model c)) = dom d →
  model_load d c = (inr tt, set_model {| parameters := d |} c).
Proof.
  intros Hdom. unfold model_load. simpl.
  rewrite decide_True by done. by rewrite torch_load_same_keys.
Qed.

(** The loop that hands the global model to the clients. *)
Lemma distribute_loop (poss : list nat) :
  ∀ f,
  (∀ i, i ∈ poss →
     ∃ c, clients f !! i = Some c
          ∧ dom (parameters (model c))
            = dom (parameters (global_model (self (server f))))) →
  ∃ f',
    for_each poss distribute f = (inr tt, f')
    ∧ generator f' = generator f
    ∧ server f' = server f
    ∧ length (clients f') = length (clients f)
    ∧ ∀ j, clients f' !! j
           = (if decide (j ∈ poss)
              then set_model (global_model (self (server f))) else id)
             <$> clients f !! j.
Proof.
  induction poss as [|i poss IH]; intros f Hvalid.
  - exists f. split_and!; try done. intros j. by destruct (clients f !! j).
  - destruct (Hvalid i) as (c & Hi & Hdom); [by left|].
    set (gm := global_model (self (server f))) in *.
    assert (Hgm : {| parameters := parameters gm |} = gm) by by destruct gm.
    set (f1 := {| generator := generator f; clients := <[i := set_model gm c]> (clients f);
                  server := server f |}).
    assert (Hstep : distribute i f = (inr tt, f1)).
    { unfold distribute. rewrite (run_bind_inr get _ f f f eq_refl).
      erewrite in_client_run; [reflexivity | exact Hi |].
      simpl. fold gm. by rewrite model_load_run, Hgm. }
    destruct (IH f1) as (f' & Hloop & Hg & Hsrv & Hn & Hcl).
    { intros j Hj. simpl. destruct (decide (j = i)) as [->|Hji].
      - exists (set_model gm c). split; [|done].
        apply list_lookup_insert_eq. by eapply lookup_lt_Some.
      - rewrite list_lookup_insert_ne by done. apply Hvalid. by right. }
    exists f'. split_and!.
    + cbn [for_each]. by rewrite (run_bind_inr _ _ _ _ _ Hstep).
    + done.
    + done.
    + by rewrite Hn; simpl; rewrite length_insert.
    + intros j. rewrite Hcl. simpl. fold gm.
      destruct (decide (j = i)) as [->|Hji].
      * rewrite (decide_True (P := i ∈ i :: poss)) by left.
        rewrite list_lookup_insert_eq by (by eapply lookup_lt_Some).
        rewrite Hi. by destruct (decide (i ∈ poss)).
      * rewrite list_lookup_insert_ne by done.
        destruct (decide (j ∈ poss)) as [Hin|Hin].
        -- by rewrite decide_True by (by right).
        -- rewrite decide_False; [done|]. by intros [?|?]%elem_of_cons.
Qed.
End RoundTorch.


